(** * The image compression pipeline of [src/compress.js]

    A shallow embedding of the [Compress] class: the media-type gates of
    [process], the scale it computes, the progressive downscale loop of
    [drawImage], the conversion of the data URL to a blob, and the size
    guard that closes [process].

    - Numbers are binary64 values: NaN, the infinities, and finite
      rationals.  Division and multiplication round with the rounding of
      the host; [Num.round64] is rounding to nearest, ties to even, and
      the theorems hold for every rounding that is monotone and exact on
      binary64 values, which [round64] is shown to be.
    - What the browser provides is a parameter (record [Host]): loading
      the image, reading the EXIF tag, [getTransform] of [./utils],
      [toDataURL], [atob], and [Math.pow], which ECMAScript leaves
      implementation-approximated.
    - A canvas keeps its two attributes and the calls made on its 2D
      context.  Two calls throw: [drawImage] from a canvas with a side of
      0, and [getImageData] of a rectangle with a side of 0; the exception
      rejects the promise of [process].
    - An instance is passed in and handed back by [process]; a promise is
      the value it settles with, together with what the call logged. *)

From Stdlib Require Import ZArith QArith Qround Qpower List String Ascii Bool Lia Lqa.
Import ListNotations.

Local Open Scope Z_scope.

(* ================================================================== *)
(** ** JavaScript numbers *)
(* ================================================================== *)

(** A JavaScript number: NaN, an infinity, or a finite rational.  Zero
    carries no sign.  The operations that round, [/] and [*], take the
    rounding function as an argument; comparisons, [Math.min],
    [Math.ceil] and [| 0] are exact on binary64 values and are exact
    here. *)
Module Num.

Inductive num : Type :=
| NaN
| PInf
| NInf
| Fin (q : Q).

Definition of_Z (z : Z) : num := Fin (inject_Z z).

(** [a < b] *)
Definition ltb (a b : num) : bool :=
  match a, b with
  | NaN, _ | _, NaN => false
  | PInf, _ => false
  | _, NInf => false
  | NInf, _ => true
  | Fin _, PInf => true
  | Fin x, Fin y => if Qlt_le_dec x y then true else false
  end.

(** [a === b] *)
Definition eqb (a b : num) : bool :=
  match a, b with
  | PInf, PInf | NInf, NInf => true
  | Fin x, Fin y => Qeq_bool x y
  | _, _ => false
  end.

(** [a <= b] *)
Definition leb (a b : num) : bool :=
  match a, b with
  | NaN, _ | _, NaN => false
  | NInf, _ => true
  | _, PInf => true
  | PInf, _ => false
  | _, NInf => false
  | Fin x, Fin y => if Qlt_le_dec y x then false else true
  end.

(** [Math.min(a, b)]: NaN if either argument is NaN. *)
Definition min2 (a b : num) : num :=
  match a, b with
  | NaN, _ | _, NaN => NaN
  | _, _ => if ltb b a then b else a
  end.

(** [Math.min(a, b, c)] *)
Definition min3 (a b c : num) : num := min2 (min2 a b) c.

(** [Math.ceil(a)] *)
Definition ceil (a : num) : num :=
  match a with
  | Fin q => of_Z (Qceiling q)
  | _ => a
  end.

(** Truncation toward zero. *)
Definition Qtrunc (q : Q) : Z := Z.quot (Qnum q) (Zpos (Qden q)).

(** [ToInt32]: what [a | 0] evaluates to.  NaN and the infinities give 0;
    a finite value is truncated toward zero and wrapped to 32 bits,
    two's complement. *)
Definition wrap32 (z : Z) : Z :=
  let u := z mod 2 ^ 32 in
  if u <? 2 ^ 31 then u else u - 2 ^ 32.

Definition to_int32 (a : num) : Z :=
  match a with
  | Fin q => wrap32 (Qtrunc q)
  | _ => 0
  end.

Definition Qsign_neg (q : Q) : bool := if Qlt_le_dec q 0%Q then true else false.
Definition Qis_zero (q : Q) : bool := Qeq_bool q 0%Q.

Section Rounded.

Variable rnd : Q -> num.

(** [a / b] *)
Definition div (a b : num) : num :=
  match a, b with
  | NaN, _ | _, NaN => NaN
  | (PInf | NInf), (PInf | NInf) => NaN
  | PInf, Fin y => if Qsign_neg y then NInf else PInf
  | NInf, Fin y => if Qsign_neg y then PInf else NInf
  | Fin _, (PInf | NInf) => Fin 0%Q
  | Fin x, Fin y =>
      if Qis_zero y then
        if Qis_zero x then NaN
        else if Qsign_neg x then NInf else PInf
      else rnd (x / y)%Q
  end.

(** [a * b] *)
Definition mul (a b : num) : num :=
  match a, b with
  | NaN, _ | _, NaN => NaN
  | PInf, PInf | NInf, NInf => PInf
  | PInf, NInf | NInf, PInf => NInf
  | PInf, Fin y | Fin y, PInf =>
      if Qis_zero y then NaN else if Qsign_neg y then NInf else PInf
  | NInf, Fin y | Fin y, NInf =>
      if Qis_zero y then NaN else if Qsign_neg y then PInf else NInf
  | Fin x, Fin y => rnd (x * y)%Q
  end.

End Rounded.

(** [- a] *)
Definition opp (a : num) : num :=
  match a with
  | NaN => NaN
  | PInf => NInf
  | NInf => PInf
  | Fin q => Fin (- q)
  end.

(** *** Rounding to binary64, to nearest, ties to even *)

(** The floor of the binary logarithm of a positive rational. *)
Definition ilog2 (q : Q) : Z :=
  let l := Z.log2 (Qnum q) - Z.log2 (Zpos (Qden q)) in
  if Qle_bool (2 ^ l) q then l else l - 1.

(** The nearest integer, the even one of two that are equally near. *)
Definition rne (q : Q) : Z :=
  let f := Qfloor q in
  match (q - inject_Z f ?= 1 # 2)%Q with
  | Lt => f
  | Gt => f + 1
  | Eq => if Z.even f then f else f + 1
  end.

(** The exponent of the last of the 53 bits of a positive rational, not
    below that of the subnormal numbers. *)
Definition ulp_exp (q : Q) : Z := Z.max (ilog2 q - 52) (-1074).

(** The nearest multiple of [2 ^ ulp_exp q]. *)
Definition nearest (q : Q) : Q :=
  (inject_Z (rne (q * 2 ^ (- ulp_exp q))) * 2 ^ ulp_exp q)%Q.

(** A positive rational rounded: infinity from [2 ^ 1024] on. *)
Definition round_pos (q : Q) : num :=
  if Qle_bool (2 ^ 1024) (nearest q) then PInf else Fin (Qred (nearest q)).

Definition round64 (q : Q) : num :=
  match (q ?= 0)%Q with
  | Eq => Fin 0%Q
  | Gt => round_pos q
  | Lt => opp (round_pos (- q))
  end.

End Num.

Import Num.

(* ================================================================== *)
(** ** Data *)
(* ================================================================== *)

(** A [Blob] (a [File] is one): its declared media type and its bytes;
    [size] is the byte length. *)
Record Blob : Type := { blob_type : string; blob_data : list Byte.byte }.

Definition size (b : Blob) : Z := Z.of_nat (List.length (blob_data b)).

(** A loaded [Image] element. *)
Record Image : Type := { img_width : Z; img_height : Z; img_src : Blob }.

(** What [getTransform(img, orientation)] returns. *)
Record Transform : Type :=
  { t_width : Z; t_height : Z; t_matrix : list Q }.

(** A canvas: its two attributes and the drawing calls made on its 2D
    context since the bitmap was last reset.  A call that draws from
    another canvas keeps that canvas as it was at the time of the call. *)
Inductive Canvas : Type :=
| mkCanvas (w h : Z) (calls : list draw_call)
with draw_call : Type :=
| FillWhite (w h : Z)
| ClearRect (w h : Z)
| ApplyTransform (m : list Q)
| DrawImg (img : Image)
| DrawScaled (src : Canvas) (w h dw dh : Z)
| PutImageData (from : Canvas) (w h : Z).

Definition canvas_width (c : Canvas) : Z := let 'mkCanvas w _ _ := c in w.
Definition canvas_height (c : Canvas) : Z := let 'mkCanvas _ h _ := c in h.
Definition calls (c : Canvas) : list draw_call := let 'mkCanvas _ _ l := c in l.

(** [document.createElement("canvas")] *)
Definition createCanvas : Canvas := mkCanvas 300 150 [].

(** [canvas.width = w] and [canvas.height = h]: the bitmap is reset. *)
Definition set_width (c : Canvas) (w : Z) : Canvas := mkCanvas w (canvas_height c) [].
Definition set_height (c : Canvas) (h : Z) : Canvas := mkCanvas (canvas_width c) h [].

(** One call on the canvas's context. *)
Definition draw (c : Canvas) (d : draw_call) : Canvas :=
  mkCanvas (canvas_width c) (canvas_height c) (calls c ++ [d]).

(** The two calls that throw.  [context.drawImage(src, ...)] throws an
    [InvalidStateError] when [src] is a canvas with a side of 0, and
    [context.getImageData(0, 0, w, h)] throws an [IndexSizeError] when [w]
    or [h] is 0. *)
Definition zero_sized (src : Canvas) : bool :=
  (canvas_width src =? 0) || (canvas_height src =? 0).
Definition empty_rectangle (w h : Z) : bool := (w =? 0) || (h =? 0).

(** [srcDimension], [distDimension] *)
Record Dimension : Type := { width : Z; height : Z }.

(** [{ blob: ..., ...dimension }] *)
Record Entry : Type := { blob : Blob; dimension : Dimension }.

(** The value [process] resolves with. *)
Record Outcome : Type := { dist : Entry; source : Entry }.

Record Config : Type := { maxWidth : Z; maxHeight : Z; quality : Q }.

(** The [option] argument of the constructor; [None] is an absent key. *)
Record Options : Type :=
  { opt_maxWidth : option Z; opt_maxHeight : option Z; opt_quality : option Q }.

(** An instance of the class: [this.config] and [this.outputType]. *)
Record Compress : Type := { config : Config; outputType : option string }.

Definition with_outputType (this : Compress) (t : string) : Compress :=
  {| config := config this; outputType := Some t |}.

(** What a promise is rejected with: [new Error(message)], the string
    passed to [reject], the [TypeError] of a method call on [undefined],
    the exception of [atob], and the two exceptions the calls on a canvas
    context throw here: the [InvalidStateError] of [drawImage] and the
    [IndexSizeError] of [getImageData]. *)
Inductive rejection : Type :=
| Error (message : string)
| Reason (message : string)
| TypeError
| InvalidCharacterError
| InvalidStateError
| IndexSizeError.

(** How a promise ends.  [Unsettled] is the model running out of fuel in
    the loop of [drawImage]; [process_settles] shows it does not happen. *)
Inductive settled (A : Type) : Type :=
| Resolved (a : A)
| Rejected (e : rejection)
| Unsettled.
Arguments Resolved {A} a.
Arguments Rejected {A} e.
Arguments Unsettled {A}.

(** How [drawImage] ends: it hands back a canvas, or [undefined] when the
    loop ends without reaching its [return], or a call on a canvas throws.
    [OutOfFuel] is the model's; [drawImage_settles] shows it does not
    happen. *)
Inductive completion (A : Type) : Type :=
| Returned (a : A)
| Undefined
| Thrown (e : rejection)
| OutOfFuel.
Arguments Returned {A} a.
Arguments Undefined {A}.
Arguments Thrown {A} e.
Arguments OutOfFuel {A}.

(** What a call of [process] does that its caller can observe besides the
    promise. *)
Inductive event : Type :=
| Warn (message : string)
| Load (file : Blob)
| ToDataURL (type : option string) (q : Q).

(** The browser: the rounding of its arithmetic, [Math.pow], the load of
    the file into an [Image] ([None] when [onerror] fires), the EXIF
    orientation tag ([None] when there is none), [getTransform],
    [canvas.toDataURL(type, quality)], and [atob] ([None] when it
    throws). *)
Record Host : Type :=
  { rnd : Q -> num;
    pow : num -> num -> num;
    loadImage : Blob -> option Image;
    exifOrientation : Image -> option Z;
    getTransform : Image -> Z -> Transform;
    toDataURL : Canvas -> option string -> Q -> string;
    atob : string -> option string }.

(* ================================================================== *)
(** ** The module's constants *)
(* ================================================================== *)

Definition MIME_TYPES : list (string * string) :=
  [ ("PNG", "image/png"); ("JPEG", "image/jpeg"); ("WEBP", "image/webp") ]%string.

Definition MAX_STEPS : num := of_Z 4.

(** [Math.log(2)], the binary64 value 0x1.62e42fefa39efp-1. *)
Definition SCALE_FACTOR : num := Fin (6243314768165359 # 9007199254740992).

Definition SUPPORT_MIME_TYPES : list string := List.map snd MIME_TYPES.

Definition DEFAULT_TYPE : string := "image/jpeg".

Definition isSupportedType (type : string) : bool :=
  existsb (String.eqb type) SUPPORT_MIME_TYPES.

(* ================================================================== *)
(** ** Strings *)
(* ================================================================== *)

(** [s.split(sep)] for a one-character separator. *)
Fixpoint split (sep : ascii) (s : string) : list string :=
  match s with
  | EmptyString => [EmptyString]
  | String c rest =>
      if Ascii.eqb c sep then EmptyString :: split sep rest
      else match split sep rest with
           | hd :: tl => String c hd :: tl
           | [] => [String c EmptyString]
           end
  end.

(** [s.split("").map(char => char.charCodeAt(0))] into a [Uint8Array]. *)
Definition charCodes (s : string) : list Byte.byte :=
  List.map byte_of_ascii (list_ascii_of_string s).

(** [type.match(/^image/)] is not null. *)
Definition matches_image (type : string) : bool := String.prefix "image" type.

(* ================================================================== *)
(** ** The class *)
(* ================================================================== *)

(** [new Compress(option)]: [Object.assign] of the option over the
    defaults. *)
Definition new_Compress (option : Options) : Compress :=
  {| config :=
       {| maxWidth := match opt_maxWidth option with Some v => v | None => 1600 end;
          maxHeight := match opt_maxHeight option with Some v => v | None => 1600 end;
          quality := match opt_quality option with Some v => v | None => (92 # 100)%Q end |};
     outputType := None |}.

Section Pipeline.

Variable host : Host.

Definition num_div : num -> num -> num := Num.div (rnd host).
Definition num_mul : num -> num -> num := Num.mul (rnd host).

(** [clear(ctx, width, height)], on the canvas [ctx] belongs to. *)
Definition clear (this : Compress) (ctx : Canvas) (width height : Z) : Canvas :=
  match outputType this with
  | Some t =>
      if String.eqb t DEFAULT_TYPE then draw ctx (FillWhite width height)
      else draw ctx (ClearRect width height)
  | None => draw ctx (ClearRect width height)
  end.

(** [getOriginInfo(img)] *)
Definition getOriginInfo (this : Compress) (img : Image) : Canvas :=
  let orientation :=
    match exifOrientation host img with
    | Some 0 | None => 1
    | Some tag => tag
    end in
  let t := getTransform host img orientation in
  let canvas := createCanvas in
  let canvas := set_width canvas (t_width t) in
  let canvas := set_height canvas (t_height t) in
  let canvas := clear this canvas (t_width t) (t_height t) in
  let canvas := draw canvas (ApplyTransform (t_matrix t)) in
  draw canvas (DrawImg img).

(** The scale [process] asks [drawImage] for. *)
Definition scaleFor (cfg : Config) (canvas : Canvas) : num :=
  min3 (of_Z 1)
       (num_div (of_Z (maxWidth cfg)) (of_Z (canvas_width canvas)))
       (num_div (of_Z (maxHeight cfg)) (of_Z (canvas_height canvas))).

(** [steps] and [factor] of [drawImage]. *)
Definition stepsFor (scale : num) : num :=
  min2 MAX_STEPS (ceil (num_div (num_div (of_Z 1) scale) SCALE_FACTOR)).

Definition factorFor (scale : num) : num :=
  pow host scale (num_div (of_Z 1) (stepsFor scale)).

(** The variables of the loop of [drawImage]. *)
Record Loop : Type :=
  { l_source : Canvas; l_mirror : Canvas; l_width : Z; l_height : Z; l_i : Z }.

(** How one pass through the body of the [while] ends: with the next
    values of the loop variables, with the canvas the body returns, or with
    the exception a call on a canvas throws. *)
Inductive pass : Type :=
| Next (st : Loop)
| Return (canvas : Canvas)
| Throw (e : rejection).

(** The [width] and [height] a pass computes, lines 141 and 142. *)
Definition scaled (factor : num) (st : Loop) : Dimension :=
  {| width := to_int32 (num_mul (of_Z (l_width st)) factor);
     height := to_int32 (num_mul (of_Z (l_height st)) factor) |}.

(** One pass through the body of the [while]. *)
Definition body (this : Compress) (steps factor : num) (st : Loop) : pass :=
  let dw := width (scaled factor st) in
  let dh := height (scaled factor st) in
  let even := l_i st mod 2 =? 0 in
  let src := if even then l_source st else l_mirror st in
  let context := if even then l_mirror st else l_source st in
  let context := clear this context (l_width st) (l_height st) in
  if zero_sized src then Throw InvalidStateError
  else
    let context := draw context (DrawScaled src (l_width st) (l_height st) dw dh) in
    let i := l_i st + 1 in
    if Num.eqb (of_Z i) steps then
      if empty_rectangle dw dh then Throw IndexSizeError
      else
        let data := PutImageData context dw dh in
        let canvas := set_width context dw in
        let canvas := set_height canvas dh in
        Return (draw canvas data)
    else
      Next {| l_source := if even then l_source st else context;
              l_mirror := if even then context else l_mirror st;
              l_width := dw; l_height := dh; l_i := i |}.

Fixpoint while (fuel : nat) (this : Compress) (steps factor : num) (st : Loop)
  : completion Canvas :=
  match fuel with
  | O => OutOfFuel
  | S fuel' =>
      if Num.ltb (of_Z (l_i st)) steps then
        match body this steps factor st with
        | Next st' => while fuel' this steps factor st'
        | Return canvas => Returned canvas
        | Throw e => Thrown e
        end
      else Undefined
  end.

(** The loop variables on entry. *)
Definition enter (source : Canvas) : Loop :=
  let mirror := createCanvas in
  let mirror := set_width mirror (canvas_width source) in
  let mirror := set_height mirror (canvas_height source) in
  {| l_source := source; l_mirror := mirror;
     l_width := canvas_width source; l_height := canvas_height source; l_i := 0 |}.

Definition loop_fuel : nat := 5.

(** [drawImage(source, scale)] *)
Definition drawImage (this : Compress) (source : Canvas) (scale : num)
  : completion Canvas :=
  if Num.eqb scale (of_Z 1) then Returned source
  else while loop_fuel this (stepsFor scale) (factorFor scale) (enter source).

(** [dataURLToBlob(dataURL)]; [None] when [atob] throws. *)
Definition dataURLToBlob (this : Compress) (dataURL : string) : option Blob :=
  match atob host (nth 1 (split "," dataURL) "undefined"%string) with
  | Some binary =>
      Some {| blob_type := match outputType this with Some t => t | None => ""%string end;
              blob_data := charCodes binary |}
  | None => None
  end.

(** The choice between the re-encoded blob and the file, lines 60 to 68. *)
Definition sizeGuard (file : Blob) (srcDimension : Dimension)
           (distBlob : Blob) (distDimension : Dimension) : Entry :=
  if size file <? size distBlob
  then {| blob := file; dimension := srcDimension |}
  else {| blob := distBlob; dimension := distDimension |}.

(** The last callback of the chain, lines 55 to 74. *)
Definition finish (this : Compress) (file : Blob) (srcDimension : Dimension)
           (result : Canvas) : list event * settled Outcome :=
  let newImageURL := toDataURL host result (outputType this) (quality (config this)) in
  let ev := [ToDataURL (outputType this) (quality (config this))] in
  match dataURLToBlob this newImageURL with
  | None => (ev, Rejected InvalidCharacterError)
  | Some distBlob =>
      let distDimension :=
        {| width := canvas_width result; height := canvas_height result |} in
      (ev, Resolved
             {| dist := sizeGuard file srcDimension distBlob distDimension;
                source := {| blob := file; dimension := srcDimension |} |})
  end.

(** The gates of [process], lines 32 to 42: the instance after them, what
    was logged, and the rejection if there is one. *)
Definition gates (this : Compress) (file : Blob)
  : Compress * list event * option rejection :=
  let this1 := with_outputType this (blob_type file) in
  if negb (matches_image (blob_type file)) then
    (this1, [], Some (Error ("unsupport file type: " ++ blob_type file)))
  else if negb (isSupportedType (blob_type file)) then
    (with_outputType this1 DEFAULT_TYPE,
     [Warn ("unsupported MIME type " ++ blob_type file
            ++ ", will fallback to default " ++ DEFAULT_TYPE)],
     None)
  else (this1, [], None).

(** The promise chain, lines 44 to 74, run on the instance as it is when
    the image has loaded. *)
Definition chain (this : Compress) (file : Blob) : list event * settled Outcome :=
  match loadImage host file with
  | None => ([Load file], Rejected (Reason "image load error"))
  | Some img =>
      let srcDimension := {| width := img_width img; height := img_height img |} in
      let canvas := getOriginInfo this img in
      let scale := scaleFor (config this) canvas in
      match drawImage this canvas scale with
      | Returned result =>
          let '(ev, r) := finish this file srcDimension result in
          (Load file :: ev, r)
      | Undefined => ([Load file], Rejected TypeError)
      | Thrown e => ([Load file], Rejected e)
      | OutOfFuel => ([Load file], Unsettled)
      end
  end.

(** [process(file)], with no other call in between. *)
Definition process (this : Compress) (file : Blob)
  : Compress * list event * settled Outcome :=
  match gates this file with
  | (this1, ev, Some e) => (this1, ev, Rejected e)
  | (this1, ev, None) =>
      let '(ev', r) := chain this1 file in (this1, ev ++ ev', r)
  end.

End Pipeline.

(* ================================================================== *)
(** ** What the theorems assume of the rounding *)
(* ================================================================== *)

(** The finite binary64 values. *)
Definition binary64 (q : Q) : Prop :=
  exists m e : Z,
    Z.abs m < 2 ^ 53 /\ -1074 <= e <= 971 /\ (q == inject_Z m * 2 ^ e)%Q.

(** Rounding to binary64, in any rounding mode, is monotone and leaves a
    binary64 value as it is. *)
Record sound_rounding (r : Q -> num) : Prop :=
  { rnd_monotone : forall x y : Q, (x <= y)%Q -> Num.leb (r x) (r y) = true;
    rnd_exact : forall q : Q, binary64 q -> Num.eqb (r q) (Fin q) = true }.

(** [a] is plus infinity or a finite value that is at least [c]. *)
Definition at_least (c : Q) (a : num) : Prop :=
  a = PInf \/ exists q, a = Fin q /\ (c <= q)%Q.


(* ================================================================== *)
(** ** What the theorems speak of *)
(* ================================================================== *)

(** The dimensions of an image and of a canvas. *)
Definition image_dimension (img : Image) : Dimension :=
  {| width := img_width img; height := img_height img |}.
Definition canvas_dimension (c : Canvas) : Dimension :=
  {| width := canvas_width c; height := canvas_height c |}.

(** The payload of every data URL the host produces is base64 that [atob]
    decodes. *)
Definition decodable (host : Host) : Prop :=
  forall (canvas : Canvas) (type : option string) (q : Q),
  exists binary : string,
    atob host (nth 1 (split "," (toDataURL host canvas type q)) "undefined"%string)
    = Some binary.

(** The message of the fallback warning. *)
Definition fallback_warning (type : string) : event :=
  Warn ("unsupported MIME type " ++ type ++ ", will fallback to default " ++ DEFAULT_TYPE).

(** The instance a call of [process] leaves behind. *)
Definition instance_after (r : Compress * list event * settled Outcome) : Compress :=
  fst (fst r).

(** The canvas a pass draws from, [src] of lines 146 to 152. *)
Definition drawn_from (st : Loop) : Canvas :=
  if l_i st mod 2 =? 0 then l_source st else l_mirror st.

(** The pairs [(dw, dh)] the loop of [drawImage] computes, pass by pass;
    the last one is the size the returned canvas is given. *)
Fixpoint passes (host : Host) (fuel : nat) (this : Compress) (steps factor : num)
         (st : Loop) : list Dimension :=
  match fuel with
  | O => []
  | S fuel' =>
      if Num.ltb (of_Z (l_i st)) steps then
        scaled host factor st
          :: match body host this steps factor st with
             | Next st' => passes host fuel' this steps factor st'
             | _ => []
             end
      else []
  end.

Definition step_dimensions (host : Host) (this : Compress) (source : Canvas)
           (scale : num) : list Dimension :=
  if Num.eqb scale (of_Z 1) then []
  else passes host loop_fuel this (stepsFor host scale) (factorFor host scale)
              (enter source).






(* ================================================================== *)
(** ** A host to run the pipeline on *)
(* ================================================================== *)

(** The largest [r] between [lo] and [hi] with [r ^ n <= m], by bisection. *)
Fixpoint bisect_root (fuel : nat) (n m lo hi : Z) : Z :=
  match fuel with
  | O => lo
  | S fuel' =>
      if hi - lo <=? 1 then lo
      else
        let mid := (lo + hi) / 2 in
        if mid ^ n <=? m then bisect_root fuel' n m mid hi
        else bisect_root fuel' n m lo mid
  end.

(** A [Math.pow] for the arguments [drawImage] passes: a base that is not
    negative and an exponent that is the binary64 value of [1/n] for an
    integer [n].  The result is the [n]-th root of the base cut to 60
    binary places, rounded to binary64.  It is NaN elsewhere. *)
Definition demo_pow (base exponent : num) : num :=
  match base, exponent with
  | Fin b, Fin e =>
      if Qsign_neg b || Qsign_neg e || Qis_zero e then NaN
      else
        let n := rne (/ e) in
        if Num.eqb (round64 (1 / inject_Z n)) (Fin e) then
          let m := Qfloor (b * 2 ^ (60 * n)) in
          round64 (bisect_root 2000 n m 0 (m + 2) # 2 ^ 60)
        else NaN
  | _, _ => NaN
  end.

(** The value of a character of the base64 alphabet. *)
Definition sextet (c : ascii) : option N :=
  let n := N_of_ascii c in
  if ((65 <=? n) && (n <=? 90))%N then Some (n - 65)%N
  else if ((97 <=? n) && (n <=? 122))%N then Some (n - 71)%N
  else if ((48 <=? n) && (n <=? 57))%N then Some (n + 4)%N
  else if (n =? 43)%N then Some 62%N
  else if (n =? 47)%N then Some 63%N
  else None.

Fixpoint sextets (l : list ascii) : option (list N) :=
  match l with
  | [] => Some []
  | c :: l' =>
      match sextet c, sextets l' with
      | Some n, Some ns => Some (n :: ns)
      | _, _ => None
      end
  end.

(** Four sextets make three bytes; three make two; two make one. *)
Fixpoint octets (fuel : nat) (l : list N) : option (list ascii) :=
  match fuel with
  | O => None
  | S fuel' =>
      match l with
      | [] => Some []
      | [_] => None
      | [a; b] => Some [ascii_of_N ((a * 4 + b / 16) mod 256)]
      | [a; b; c] =>
          Some [ascii_of_N ((a * 4 + b / 16) mod 256);
                ascii_of_N ((b * 16 + c / 4) mod 256)]
      | a :: b :: c :: d :: l' =>
          match octets fuel' l' with
          | Some rest =>
              Some (ascii_of_N ((a * 4 + b / 16) mod 256)
                    :: ascii_of_N ((b * 16 + c / 4) mod 256)
                    :: ascii_of_N ((c * 64 + d) mod 256) :: rest)
          | None => None
          end
      end
  end%N.

(** The padding is dropped from a string whose length is a multiple of 4. *)
Definition unpad (l : list ascii) : list ascii :=
  if (Nat.modulo (List.length l) 4 =? 0)%nat then
    match rev l with
    | "="%char :: "="%char :: r => rev r
    | "="%char :: r => rev r
    | _ => l
    end
  else l.

(** [atob] on a string with no white space. *)
Definition base64_decode (s : string) : option string :=
  match sextets (unpad (list_ascii_of_string s)) with
  | Some ns =>
      match octets (S (List.length ns)) ns with
      | Some l => Some (string_of_list_ascii l)
      | None => None
      end
  | None => None
  end.

(** A [toDataURL] that encodes every canvas to the first bytes of a file
    of the type asked for, and to PNG for a type it does not know. *)
Definition demo_toDataURL (canvas : Canvas) (type : option string) (q : Q) : string :=
  match type with
  | Some t =>
      if String.eqb t "image/jpeg" then "data:image/jpeg;base64,/9j/4A=="
      else if String.eqb t "image/webp" then "data:image/webp;base64,UklGRg=="
      else "data:image/png;base64,iVBORw0K"
  | None => "data:image/png;base64,iVBORw0K"
  end.

(** The six bytes the PNG data URL above decodes to. *)
Definition png_signature : list Byte.byte :=
  [Byte.x89; Byte.x50; Byte.x4e; Byte.x47; Byte.x0d; Byte.x0a].

(** A browser that loads every file as an image of [w] by [h] pixels with no
    EXIF orientation. *)
Definition demo_host (w h : Z) : Host :=
  {| rnd := round64;
     pow := demo_pow;
     loadImage := fun file => Some {| img_width := w; img_height := h; img_src := file |};
     exifOrientation := fun _ => None;
     getTransform := fun img _ =>
       {| t_width := img_width img; t_height := img_height img;
          t_matrix := [1; 0; 0; 1; 0; 0]%Q |};
     toDataURL := demo_toDataURL;
     atob := base64_decode |}.

(** The same browser, on which no image loads. *)
Definition broken_host : Host :=
  {| rnd := round64;
     pow := demo_pow;
     loadImage := fun _ => None;
     exifOrientation := exifOrientation (demo_host 1 1);
     getTransform := getTransform (demo_host 1 1);
     toDataURL := toDataURL (demo_host 1 1);
     atob := atob (demo_host 1 1) |}.

Definition no_options : Options :=
  {| opt_maxWidth := None; opt_maxHeight := None; opt_quality := None |}.

Definition bytes (n : nat) : list Byte.byte := List.repeat Byte.x00 n.

Definition png_file (n : nat) : Blob := {| blob_type := "image/png"; blob_data := bytes n |}.
Definition gif_file (n : nat) : Blob := {| blob_type := "image/gif"; blob_data := bytes n |}.
Definition text_file (n : nat) : Blob := {| blob_type := "text/plain"; blob_data := bytes n |}.

(** An instance fresh from the constructor, with the default bounds. *)
Definition fresh : Compress := new_Compress no_options.

(** A canvas of [w] by [h] pixels nothing was drawn on. *)
Definition blank (w h : Z) : Canvas := mkCanvas w h [].

(* ================================================================== *)
(** ** What the further theorems speak of *)
(* ================================================================== *)

(** A string with no comma in it. *)
Definition comma_free (s : string) : bool :=
  forallb (fun c => negb (Ascii.eqb c ","%char)) (list_ascii_of_string s).

(** A scale [drawImage] has no step count for: NaN, an infinity, or a
    number below 0. *)
Definition unusable (scale : num) : Prop :=
  scale = NaN \/ scale = PInf \/ scale = NInf \/
  exists s, scale = Fin s /\ (s < 0)%Q.

(** An instance made with the two bounds given. *)
Definition bounded (w h : Z) : Compress :=
  new_Compress {| opt_maxWidth := Some w; opt_maxHeight := Some h; opt_quality := None |}.

(** The blob [dataURLToBlob] makes of a decoded payload. *)
Definition blob_of (this : Compress) (binary : string) : Blob :=
  {| blob_type := match outputType this with Some t => t | None => ""%string end;
     blob_data := charCodes binary |}.

(** [a] is minus infinity or a finite value that is at most [c]. *)
Definition at_most (c : Q) (a : num) : Prop :=
  a = NInf \/ exists q, a = Fin q /\ (q <= c)%Q.

(** [a] is NaN, minus infinity, or a finite value below 0. *)
Definition negative (a : num) : Prop :=
  a = NaN \/ a = NInf \/ exists q, a = Fin q /\ (q < 0)%Q.

(** The size [getTransform] gives is positive and fits a canvas, whatever
    the orientation. *)
Definition sized (host : Host) (img : Image) : Prop :=
  forall tag : Z,
    0 < t_width (getTransform host img tag) < 2 ^ 31 /\
    0 < t_height (getTransform host img tag) < 2 ^ 31.

(** How far above the scale the [steps]-fold product of the factor of
    [Math.pow] may be for the result to fit the bounds: [2 ^ -40]. *)
Definition pow_slack : Q := 1 # 1099511627776.


(* ================================================================== *)
(** ** Facts about numbers *)
(* ================================================================== *)

(** What is at least a finite value is infinite or finite and at least it. *)
Lemma leb_Fin_inv (a : Q) (x : num) :
  Num.leb (Fin a) x = true -> x = PInf \/ exists q, x = Fin q /\ (a <= q)%Q.
Proof.
  destruct x as [| | |q]; simpl; try discriminate; auto.
  destruct (Qlt_le_dec q a); try discriminate. right; eauto.
Qed.

(** What is at most a finite value is minus infinity or finite and at most it. *)
Lemma leb_inv_Fin (x : num) (b : Q) :
  Num.leb x (Fin b) = true -> x = NInf \/ exists q, x = Fin q /\ (q <= b)%Q.
Proof.
  destruct x as [| | |q]; simpl; try discriminate; auto.
  destruct (Qlt_le_dec b q); try discriminate. right; eauto.
Qed.

(** What is [===] to a finite value is finite and equal to it. *)
Lemma eqb_Fin_inv (x : num) (b : Q) :
  Num.eqb x (Fin b) = true -> exists q, x = Fin q /\ (q == b)%Q.
Proof.
  destruct x as [| | |q]; simpl; try discriminate.
  intros H. apply Qeq_bool_iff in H. eauto.
Qed.

(** Negation reverses the order. *)
Lemma leb_opp (a b : num) : Num.leb (opp a) (opp b) = Num.leb b a.
Proof.
  destruct a as [| | |x], b as [| | |y]; simpl; try reflexivity.
  destruct (Qlt_le_dec (- y) (- x)), (Qlt_le_dec x y); try reflexivity; lra.
Qed.

Lemma opp_nonpos (a : num) : Num.leb (Fin 0) a = true -> Num.leb (opp a) (Fin 0) = true.
Proof.
  destruct a as [| | |x]; simpl; try discriminate; try reflexivity.
  destruct (Qlt_le_dec x 0), (Qlt_le_dec 0 (- x)); try discriminate; try reflexivity; lra.
Qed.

(** The order is transitive. *)
Lemma leb_trans (a b c : num) : Num.leb a b = true -> Num.leb b c = true -> Num.leb a c = true.
Proof.
  destruct a as [| | |x], b as [| | |y], c as [| | |z]; simpl;
    try discriminate; try reflexivity.
  destruct (Qlt_le_dec y x), (Qlt_le_dec z y), (Qlt_le_dec z x);
    try discriminate; try reflexivity; lra.
Qed.

(** No number is below itself. *)
Lemma ltb_irrefl (x : num) : Num.ltb x x = false.
Proof.
  destruct x as [| | |x]; simpl; try reflexivity.
  destruct (Qlt_le_dec x x); [lra | reflexivity].
Qed.

(** [===] and [<] on integers are those of [Z]. *)
Lemma of_Z_eqb (a b : Z) : Num.eqb (of_Z a) (of_Z b) = (a =? b).
Proof.
  unfold of_Z; simpl. destruct (Z.eqb_spec a b) as [-> | Hne].
  - apply Qeq_bool_iff. reflexivity.
  - destruct (Qeq_bool (inject_Z a) (inject_Z b)) eqn:E; [| reflexivity].
    apply Qeq_bool_iff in E. unfold Qeq in E. simpl in E. lia.
Qed.

Lemma of_Z_ltb (a b : Z) : Num.ltb (of_Z a) (of_Z b) = (a <? b).
Proof.
  unfold of_Z; simpl. destruct (Qlt_le_dec (inject_Z a) (inject_Z b)) as [H | H].
  - rewrite <- Zlt_Qlt in H. symmetry. apply Z.ltb_lt. exact H.
  - rewrite <- Zle_Qle in H. symmetry. apply Z.ltb_ge. exact H.
Qed.

(** A value below 1 is not [=== 1]. *)
Lemma Fin_eqb_one (s : Q) : (s < 1)%Q -> Num.eqb (Fin s) (of_Z 1) = false.
Proof.
  intros Hs. destruct (Num.eqb (Fin s) (of_Z 1)) eqn:E; [| reflexivity].
  apply eqb_Fin_inv in E. destruct E as (q & [= <-] & Hq).
  unfold inject_Z in Hq. lra.
Qed.

(** A number below [Math.min(a, b)] is below both. *)
Lemma ltb_min2 (x a b : num) :
  Num.ltb x (min2 a b) = true -> Num.ltb x a = true /\ Num.ltb x b = true.
Proof.
  destruct x as [| | |x], a as [| | |a], b as [| | |b]; simpl;
    repeat match goal with
           | |- context [Qlt_le_dec ?p ?q] => destruct (Qlt_le_dec p q); simpl
           end;
    intros H; try discriminate H; split; try reflexivity; try lra.
Qed.

(** [Math.min(1, a)] is 1 when [a] is at least 1. *)
Lemma min2_one (a : num) : at_least 1 a -> min2 (of_Z 1) a = of_Z 1.
Proof.
  intros [-> | (q & -> & Hq)]; simpl; [reflexivity |].
  destruct (Qlt_le_dec q (inject_Z 1)) as [Hlt | _]; [| reflexivity].
  unfold inject_Z in Hlt. lra.
Qed.

(** [Math.min] of a number between 0 and 1 and one that is not negative. *)
Lemma min2_unit (s : Q) (b : num) :
  (0 <= s <= 1)%Q -> at_least 0 b ->
  exists s', min2 (Fin s) b = Fin s' /\ (0 <= s' <= 1)%Q.
Proof.
  intros Hs [-> | (q & -> & Hq)]; simpl.
  - exists s. split; [reflexivity | exact Hs].
  - destruct (Qlt_le_dec q s).
    + exists q. split; [reflexivity | lra].
    + exists s. split; [reflexivity | exact Hs].
Qed.

(** [Math.min(4, x)] for [x] infinite or an integer that is at least [k]. *)
Lemma min2_MAX_STEPS (k : Z) (x : num) :
  k <= 4 ->
  (x = PInf \/ exists z, x = of_Z z /\ k <= z) ->
  exists n, k <= n <= 4 /\ min2 MAX_STEPS x = of_Z n.
Proof.
  intros Hk [-> | (z & -> & Hz)].
  - exists 4. split; [lia | reflexivity].
  - unfold MAX_STEPS, min2. change (of_Z z) with (Fin (inject_Z z)) at 1.
    cbv iota beta. change (Fin (inject_Z z)) with (of_Z z). rewrite of_Z_ltb.
    destruct (Z.ltb_spec z 4).
    + exists z. split; [lia | reflexivity].
    + exists 4. split; [lia | reflexivity].
Qed.

(** [Math.min(4, x)] is NaN, minus infinity, or finite and at most 4. *)
Lemma min2_MAX_STEPS_bound (x : num) :
  min2 MAX_STEPS x = NaN \/ min2 MAX_STEPS x = NInf \/
  exists q, min2 MAX_STEPS x = Fin q /\ (q <= 4)%Q.
Proof.
  destruct x as [| | |q]; simpl; auto.
  - right; right. exists (inject_Z 4). split; [reflexivity | unfold inject_Z; lra].
  - right; right. destruct (Qlt_le_dec q (inject_Z 4)) as [H | H].
    + exists q. split; [reflexivity |]. unfold inject_Z in H. lra.
    + exists (inject_Z 4). split; [reflexivity | unfold inject_Z; lra].
Qed.

(** The ceiling of a value above [k - 1] is at least [k]. *)
Lemma ceil_at_least (c : Q) (k : Z) (x : num) :
  (inject_Z k - 1 < c)%Q -> at_least c x ->
  ceil x = PInf \/ exists z, ceil x = of_Z z /\ k <= z.
Proof.
  intros Hk [-> | (q & -> & Hq)]; [now left | right].
  exists (Qceiling q). split; [reflexivity |].
  pose proof (Qle_ceiling q) as Hc.
  assert (inject_Z (k - 1) < inject_Z (Qceiling q))%Q as Hlt.
  { assert (inject_Z (k - 1) == inject_Z k - 1)%Q as ->
        by (unfold Z.sub; rewrite inject_Z_plus; reflexivity).
    lra. }
  rewrite <- Zlt_Qlt in Hlt. lia.
Qed.

(** The tests of [Num.div] and [Num.mul]. *)
Lemma Qis_zero_false (q : Q) : ~ (q == 0)%Q -> Qis_zero q = false.
Proof.
  intros H. unfold Qis_zero. destruct (Qeq_bool q 0) eqn:E; [| reflexivity].
  apply Qeq_bool_iff in E. contradiction.
Qed.

Lemma Qis_zero_true (q : Q) : (q == 0)%Q -> Qis_zero q = true.
Proof. intros H. apply Qeq_bool_iff. exact H. Qed.

Lemma Qsign_neg_false (q : Q) : (0 <= q)%Q -> Qsign_neg q = false.
Proof.
  intros H. unfold Qsign_neg. destruct (Qlt_le_dec q 0); [lra | reflexivity].
Qed.

(** A positive integer is a positive rational. *)
Lemma inject_Z_lt0 (z : Z) : 0 < z -> (0 < inject_Z z)%Q.
Proof. intros H. change 0%Q with (inject_Z 0). rewrite <- Zlt_Qlt. exact H. Qed.

(** Truncation is the floor on what is not negative. *)
Lemma Qtrunc_nonneg (q : Q) : (0 <= q)%Q -> Qtrunc q = Qfloor q.
Proof.
  destruct q as [n d]. unfold Qle, Qtrunc, Qfloor; simpl. intros H.
  apply Z.quot_div_nonneg; lia.
Qed.

(** Wrapping leaves a non-negative 31-bit integer as it is. *)
Lemma wrap32_small (z : Z) : 0 <= z < 2 ^ 31 -> wrap32 z = z.
Proof.
  intros H. unfold wrap32. rewrite Z.mod_small by lia.
  destruct (Z.ltb_spec z (2 ^ 31)); lia.
Qed.

(* ================================================================== *)
(** ** What follows from a sound rounding *)
(* ================================================================== *)

(** Integers below [2 ^ 53] in absolute value are binary64 values, and so is 5/4. *)
Lemma binary64_Z (z : Z) : Z.abs z < 2 ^ 53 -> binary64 (inject_Z z).
Proof.
  intros Hz. exists z, 0. repeat split; try lia.
  change (2 ^ 0)%Q with 1%Q. ring.
Qed.

Lemma binary64_five_quarters : binary64 (5 # 4).
Proof.
  exists 5, (-2). repeat split; try lia.
Qed.

Section Rounding.

Variable r : Q -> num.
Hypothesis sound : sound_rounding r.

(** Above a binary64 value the rounded result stays above it. *)
Lemma rnd_lower (a x : Q) :
  binary64 a -> (a <= x)%Q ->
  r x = PInf \/ exists q, r x = Fin q /\ (a <= q)%Q.
Proof.
  intros Ha Hax.
  pose proof (rnd_monotone r sound a x Hax) as Hm.
  destruct (eqb_Fin_inv _ _ (rnd_exact r sound a Ha)) as (a' & Ea & Haa).
  rewrite Ea in Hm. apply leb_Fin_inv in Hm.
  destruct Hm as [Hm | (q & Eq & Hq)]; [now left | right].
  exists q. split; [assumption | lra].
Qed.

(** Below a binary64 value the rounded result stays below it. *)
Lemma rnd_upper (b x : Q) :
  binary64 b -> (x <= b)%Q ->
  r x = NInf \/ exists q, r x = Fin q /\ (q <= b)%Q.
Proof.
  intros Hb Hxb.
  pose proof (rnd_monotone r sound x b Hxb) as Hm.
  destruct (eqb_Fin_inv _ _ (rnd_exact r sound b Hb)) as (b' & Eb & Hbb).
  rewrite Eb in Hm. apply leb_inv_Fin in Hm.
  destruct Hm as [Hm | (q & Eq & Hq)]; [now left | right].
  exists q. split; [assumption | lra].
Qed.

(** Between two binary64 values the rounded result is finite and stays
    between them. *)
Lemma rnd_between (a b x : Q) :
  binary64 a -> binary64 b -> (a <= x <= b)%Q ->
  exists q, r x = Fin q /\ (a <= q <= b)%Q.
Proof.
  intros Ha Hb [Hax Hxb].
  destruct (rnd_lower a x Ha Hax) as [E | (q & E & Hq)];
    destruct (rnd_upper b x Hb Hxb) as [E' | (q' & E' & Hq')];
    rewrite E in E'; try discriminate.
  injection E' as ->. exists q'. split; [assumption | lra].
Qed.

End Rounding.

(* ================================================================== *)
(** ** Rounding to binary64 is sound *)
(* ================================================================== *)

(** Powers of two. *)
Lemma p2_pos (z : Z) : (0 < 2 ^ z)%Q.
Proof. apply Qpower_0_lt. reflexivity. Qed.

Lemma p2_le (a b : Z) : a <= b -> (2 ^ a <= 2 ^ b)%Q.
Proof. intros H. apply Qpower_le_compat_l; [exact H | discriminate]. Qed.

Lemma p2_lt (a b : Z) : a < b -> (2 ^ a < 2 ^ b)%Q.
Proof. intros H. apply Qpower_lt_compat_l; [exact H | reflexivity]. Qed.

Lemma p2_lt_inv (a b : Z) : (2 ^ a < 2 ^ b)%Q -> a < b.
Proof. intros H. apply (Qpower_lt_compat_l_inv 2); [exact H | reflexivity]. Qed.

Lemma p2_plus (a b : Z) : (2 ^ (a + b) == 2 ^ a * 2 ^ b)%Q.
Proof. apply Qpower_plus. discriminate. Qed.

Lemma p2_Z (n : Z) : 0 <= n -> (inject_Z (2 ^ n) == 2 ^ n)%Q.
Proof. intros H. rewrite Zpower_Qpower by exact H. reflexivity. Qed.

Lemma p2_succ (a : Z) : (2 ^ (a + 1) == 2 * 2 ^ a)%Q.
Proof. rewrite p2_plus. change (2 ^ 1)%Q with 2%Q. ring. Qed.

Lemma p2_cancel (a : Z) : (2 ^ a * 2 ^ (- a) == 1)%Q.
Proof. rewrite <- p2_plus. rewrite Z.add_opp_diag_r. reflexivity. Qed.

(** floor of the binary logarithm *)
Lemma ilog2_spec (q : Q) :
  (0 < q)%Q -> (2 ^ ilog2 q <= q < 2 ^ (ilog2 q + 1))%Q.
Proof.
  intros Hq. destruct q as [n d]. unfold ilog2. cbn [Qnum Qden].
  assert (0 < n) as Hn by (unfold Qlt in Hq; simpl in Hq; lia).
  pose proof (Z.log2_spec n Hn) as [Hn1 Hn2].
  pose proof (Z.log2_spec (Zpos d) (Pos2Z.is_pos d)) as [Hd1 Hd2].
  pose proof (Z.log2_nonneg n) as Hln.
  pose proof (Z.log2_nonneg (Zpos d)) as Hld.
  set (ln := Z.log2 n) in *. set (ld := Z.log2 (Zpos d)) in *.
  assert (n # d == inject_Z n / inject_Z (Zpos d))%Q as Eq by apply Qmake_Qdiv.
  assert (0 < inject_Z (Zpos d))%Q as Hdq by reflexivity.
  assert (2 ^ ln <= inject_Z n)%Q as A1.
  { rewrite <- p2_Z by lia. rewrite <- Zle_Qle. exact Hn1. }
  assert (inject_Z n < 2 * 2 ^ ln)%Q as A2.
  { rewrite <- p2_succ. rewrite <- p2_Z by lia. rewrite <- Zlt_Qlt. exact Hn2. }
  assert (2 ^ ld <= inject_Z (Zpos d))%Q as B1.
  { rewrite <- p2_Z by lia. rewrite <- Zle_Qle. exact Hd1. }
  assert (inject_Z (Zpos d) < 2 * 2 ^ ld)%Q as B2.
  { rewrite <- p2_succ. rewrite <- p2_Z by lia. rewrite <- Zlt_Qlt. exact Hd2. }
  assert (2 ^ (ln - ld) * 2 ^ ld == 2 ^ ln)%Q as EX.
  { rewrite <- p2_plus. replace (ln - ld + ld) with ln by lia. reflexivity. }
  pose proof (p2_pos (ln - ld)) as HX. pose proof (p2_pos ld) as HB.
  pose proof (p2_pos ln) as HA.
  assert ((n # d) * inject_Z (Zpos d) == inject_Z n)%Q as En.
  { rewrite Eq. field. intros E. rewrite E in Hdq. discriminate. }
  set (q := (n # d)%Q) in *. set (X := (2 ^ (ln - ld))%Q) in *.
  set (A := (2 ^ ln)%Q) in *. set (B := (2 ^ ld)%Q) in *.
  set (N := inject_Z n) in *. set (D := inject_Z (Zpos d)) in *.
  destruct (Qle_bool X q) eqn:C.
  - apply Qle_bool_iff in C. split; [exact C |].
    unfold X. rewrite p2_succ. fold X.
    apply Qnot_le_lt. intros Hc.
    assert (2 * X * B <= q * D)%Q by nra. nra.
  - assert (q < X)%Q as C'.
    { apply Qnot_le_lt. intros Hc. apply Qle_bool_iff in Hc. congruence. }
    replace (ln - ld - 1 + 1) with (ln - ld) by lia. fold X. split; [| exact C'].
    assert (2 * 2 ^ (ln - ld - 1) == X)%Q as E2.
    { unfold X. rewrite <- p2_succ. replace (ln - ld - 1 + 1) with (ln - ld) by lia.
      reflexivity. }
    pose proof (p2_pos (ln - ld - 1)) as HY.
    set (Y := (2 ^ (ln - ld - 1))%Q) in *.
    apply Qnot_lt_le. intros Hc.
    assert (q * D < Y * (2 * B))%Q by nra. nra.
Qed.

(** The binary logarithm is monotone. *)
Lemma ilog2_mono (x y : Q) : (0 < x)%Q -> (x <= y)%Q -> ilog2 x <= ilog2 y.
Proof.
  intros Hx Hxy.
  destruct (ilog2_spec x Hx) as [X1 _].
  destruct (ilog2_spec y) as [_ Y2]; [lra |].
  assert (2 ^ ilog2 x < 2 ^ (ilog2 y + 1))%Q as H by lra.
  apply p2_lt_inv in H. lia.
Qed.

(** rounding to the nearest integer, ties to even *)
Lemma rne_cases (q : Q) :
  (rne q = Qfloor q /\ (q - inject_Z (Qfloor q) <= 1 # 2)%Q) \/
  (rne q = Qfloor q + 1 /\ (1 # 2 <= q - inject_Z (Qfloor q))%Q).
Proof.
  unfold rne. destruct (Qcompare_spec (q - inject_Z (Qfloor q)) (1 # 2)) as [H | H | H].
  - destruct (Z.even (Qfloor q)); [left | right]; split; try reflexivity; lra.
  - left. split; [reflexivity | lra].
  - right. split; [reflexivity | lra].
Qed.

Lemma rne_tie (q : Q) :
  (q - inject_Z (Qfloor q) == 1 # 2)%Q ->
  rne q = if Z.even (Qfloor q) then Qfloor q else Qfloor q + 1.
Proof.
  intros H. unfold rne. cbv zeta.
  destruct (Qcompare_spec (q - inject_Z (Qfloor q)) (1 # 2)); [reflexivity | lra | lra].
Qed.

Lemma rne_below (q : Q) :
  (q - inject_Z (Qfloor q) < 1 # 2)%Q -> rne q = Qfloor q.
Proof.
  intros H. unfold rne. cbv zeta.
  destruct (Qcompare_spec (q - inject_Z (Qfloor q)) (1 # 2)); [lra | reflexivity | lra].
Qed.

Lemma rne_above (q : Q) :
  (1 # 2 < q - inject_Z (Qfloor q))%Q -> rne q = Qfloor q + 1.
Proof.
  intros H. unfold rne. cbv zeta.
  destruct (Qcompare_spec (q - inject_Z (Qfloor q)) (1 # 2)); [lra | lra | reflexivity].
Qed.

(** Rounding to the nearest integer is monotone, and exact on integers. *)
Lemma rne_mono (x y : Q) : (x <= y)%Q -> rne x <= rne y.
Proof.
  intros Hxy. pose proof (Qfloor_resp_le x y Hxy) as Hf.
  destruct (Z.eq_dec (Qfloor x) (Qfloor y)) as [E | NE].
  - destruct (Qcompare_spec (x - inject_Z (Qfloor x)) (1 # 2)) as [Hx | Hx | Hx].
    + rewrite (rne_tie x Hx).
      destruct (Qcompare_spec (y - inject_Z (Qfloor y)) (1 # 2)) as [Hy | Hy | Hy].
      * rewrite (rne_tie y Hy). rewrite E. lia.
      * exfalso. rewrite E in Hx. lra.
      * rewrite (rne_above y Hy). rewrite E. destruct (Z.even (Qfloor y)); lia.
    + rewrite (rne_below x Hx). destruct (rne_cases y) as [[-> _] | [-> _]]; lia.
    + rewrite (rne_above x Hx). rewrite rne_above; [lia |]. rewrite <- E. lra.
  - destruct (rne_cases x) as [[-> _] | [-> _]];
      destruct (rne_cases y) as [[-> _] | [-> _]]; lia.
Qed.

Lemma rne_Z (z : Z) : rne (inject_Z z) = z.
Proof.
  rewrite rne_below; rewrite Qfloor_Z; [reflexivity |].
  assert (inject_Z z - inject_Z z == 0)%Q as -> by ring. reflexivity.
Qed.

Lemma rne_compat (x y : Q) : (x == y)%Q -> rne x = rne y.
Proof.
  intros E. apply Z.le_antisymm; apply rne_mono; rewrite E; apply Qle_refl.
Qed.

Lemma rne_le_Z (q : Q) (k : Z) : (q <= inject_Z k)%Q -> rne q <= k.
Proof. intros H. rewrite <- (rne_Z k). apply rne_mono. exact H. Qed.

Lemma rne_ge_Z (q : Q) (k : Z) : (inject_Z k <= q)%Q -> k <= rne q.
Proof. intros H. rewrite <- (rne_Z k). apply rne_mono. exact H. Qed.

(** Scaling by a power of two and back. *)
Lemma scaled_back (x : Q) (e : Z) : (x * 2 ^ (- e) * 2 ^ e == x)%Q.
Proof.
  rewrite <- Qmult_assoc. rewrite (Qmult_comm (2 ^ (- e))). rewrite p2_cancel. ring.
Qed.

(** the rounded value does not pass the next power of two *)
Lemma nearest_upper (q : Q) :
  (0 < q)%Q -> (nearest q <= 2 ^ Z.max (ilog2 q + 1) (ulp_exp q))%Q.
Proof.
  intros Hq. destruct (ilog2_spec q Hq) as [_ Hu]. unfold nearest.
  set (e := ulp_exp q) in *. set (L := ilog2 q) in *.
  set (k := Z.max (L + 1 - e) 0).
  assert (Z.max (L + 1) e = k + e) as -> by lia.
  rewrite p2_plus. pose proof (p2_pos e) as He. pose proof (p2_pos (- e)) as Hne.
  apply Qmult_le_compat_r; [| lra].
  rewrite <- (p2_Z k) by lia. rewrite <- Zle_Qle. apply rne_le_Z.
  rewrite (p2_Z k) by lia.
  apply Qle_trans with (2 ^ (L + 1 - e))%Q; [| apply p2_le; lia].
  unfold Z.sub at 1. rewrite p2_plus.
  apply Qmult_le_compat_r; lra.
Qed.

(** in the normal range the rounded value does not fall below the power of
    two under the argument *)
Lemma nearest_lower (q : Q) :
  (0 < q)%Q -> ulp_exp q = ilog2 q - 52 -> (2 ^ ilog2 q <= nearest q)%Q.
Proof.
  intros Hq En. destruct (ilog2_spec q Hq) as [Hl _]. unfold nearest. rewrite En.
  set (L := ilog2 q) in *. pose proof (p2_pos (L - 52)) as He.
  pose proof (p2_pos (- (L - 52))) as Hne.
  assert (2 ^ L == 2 ^ 52 * 2 ^ (L - 52))%Q as ->.
  { rewrite <- p2_plus. replace (52 + (L - 52)) with L by lia. reflexivity. }
  apply Qmult_le_compat_r; [| lra].
  rewrite <- (p2_Z 52) by lia. rewrite <- Zle_Qle. apply rne_ge_Z.
  rewrite (p2_Z 52) by lia.
  assert (2 ^ 52 == 2 ^ L * 2 ^ (- (L - 52)))%Q as ->.
  { rewrite <- p2_plus. replace (L + - (L - 52)) with 52 by lia. reflexivity. }
  apply Qmult_le_compat_r; lra.
Qed.

(** The rounded value of a positive rational is not negative. *)
Lemma nearest_nonneg (q : Q) : (0 < q)%Q -> (0 <= nearest q)%Q.
Proof.
  intros Hq. unfold nearest. pose proof (p2_pos (ulp_exp q)) as He.
  pose proof (p2_pos (- ulp_exp q)) as Hne.
  apply Qmult_le_0_compat; [| lra].
  change 0%Q with (inject_Z 0). rewrite <- Zle_Qle. apply rne_ge_Z.
  change (inject_Z 0) with 0%Q. apply Qmult_le_0_compat; lra.
Qed.

(** Rounding is monotone on positive rationals: within one binade by
    [rne_mono], across binades by the power of two between them. *)
Lemma nearest_mono (x y : Q) :
  (0 < x)%Q -> (x <= y)%Q -> (nearest x <= nearest y)%Q.
Proof.
  intros Hx Hxy. assert (0 < y)%Q as Hy by lra.
  pose proof (ilog2_mono x y Hx Hxy) as HL.
  destruct (Z.eq_dec (ulp_exp x) (ulp_exp y)) as [E | NE].
  - unfold nearest. rewrite E. pose proof (p2_pos (ulp_exp y)) as He.
    pose proof (p2_pos (- ulp_exp y)) as Hne.
    apply Qmult_le_compat_r; [| lra].
    rewrite <- Zle_Qle. apply rne_mono. apply Qmult_le_compat_r; lra.
  - assert (ulp_exp y = ilog2 y - 52) as Ey by (unfold ulp_exp in *; lia).
    apply Qle_trans with (2 ^ ilog2 y)%Q; [| apply nearest_lower; assumption].
    apply Qle_trans with (2 ^ Z.max (ilog2 x + 1) (ulp_exp x))%Q;
      [apply nearest_upper; assumption |].
    apply p2_le. unfold ulp_exp in *. lia.
Qed.

(** A rational that fits in 53 bits above the subnormal exponent is its own
    rounded value. *)
Lemma nearest_exact (q : Q) (m e : Z) :
  0 < m < 2 ^ 53 -> -1074 <= e ->
  (q == inject_Z m * 2 ^ e)%Q -> (nearest q == q)%Q.
Proof.
  intros Hm He Eq. pose proof (p2_pos e) as Hpe.
  assert (0 < inject_Z m)%Q as Hmq.
  { change 0%Q with (inject_Z 0). rewrite <- Zlt_Qlt. lia. }
  assert (0 < q)%Q as Hq by (rewrite Eq; apply Qmult_lt_0_compat; assumption).
  destruct (ilog2_spec q Hq) as [Hl _].
  assert (q < 2 ^ (53 + e))%Q as Hu.
  { rewrite Eq, p2_plus. apply Qmult_lt_compat_r; [assumption |].
    rewrite <- p2_Z by lia. rewrite <- Zlt_Qlt. lia. }
  assert (ilog2 q < 53 + e) as HL.
  { apply p2_lt_inv. lra. }
  unfold nearest. set (u := ulp_exp q).
  assert (u <= e) as Hue by (unfold u, ulp_exp; lia).
  assert (q * 2 ^ (- u) == inject_Z (m * 2 ^ (e - u)))%Q as Ei.
  { rewrite inject_Z_mult, p2_Z by lia. rewrite Eq.
    unfold Z.sub. rewrite p2_plus. ring. }
  rewrite (rne_compat _ _ Ei), rne_Z, <- Ei. apply scaled_back.
Qed.

(** [round_pos] overflows to infinity or gives the rounded value. *)
Lemma round_pos_cases (q : Q) :
  (0 < q)%Q ->
  (round_pos q = PInf /\ (2 ^ 1024 <= nearest q)%Q) \/
  (exists r, round_pos q = Fin r /\ (r == nearest q)%Q /\ (nearest q < 2 ^ 1024)%Q).
Proof.
  intros Hq. unfold round_pos.
  destruct (Qle_bool (2 ^ 1024) (nearest q)) eqn:E.
  - left. split; [reflexivity |]. apply Qle_bool_iff. exact E.
  - right. exists (Qred (nearest q)). split; [reflexivity |].
    split; [apply Qred_correct |]. apply Qnot_le_lt. intros H.
    apply Qle_bool_iff in H. congruence.
Qed.

Lemma round_pos_mono (x y : Q) :
  (0 < x)%Q -> (x <= y)%Q -> Num.leb (round_pos x) (round_pos y) = true.
Proof.
  intros Hx Hxy. pose proof (nearest_mono x y Hx Hxy) as Hn.
  destruct (round_pos_cases x Hx) as [[-> Ex] | (rx & -> & Erx & Ex)];
    destruct (round_pos_cases y) as [[-> Ey] | (ry & -> & Ery & Ey)];
    try lra; try reflexivity.
  simpl. destruct (Qlt_le_dec ry rx); [lra | reflexivity].
Qed.

Lemma round_pos_sign (x : Q) :
  (0 < x)%Q -> Num.leb (Fin 0) (round_pos x) = true.
Proof.
  intros Hx. pose proof (nearest_nonneg x Hx) as Hn.
  destruct (round_pos_cases x Hx) as [[-> _] | (r & -> & Er & _)]; [reflexivity |].
  simpl. destruct (Qlt_le_dec r 0); [lra | reflexivity].
Qed.

Lemma round_pos_exact (q : Q) (m e : Z) :
  0 < m < 2 ^ 53 -> -1074 <= e <= 971 ->
  (q == inject_Z m * 2 ^ e)%Q -> Num.eqb (round_pos q) (Fin q) = true.
Proof.
  intros Hm He Eq. pose proof (nearest_exact q m e Hm (proj1 He) Eq) as En.
  pose proof (p2_pos e) as Hpe.
  assert (0 < q)%Q as Hq.
  { rewrite Eq. apply Qmult_lt_0_compat; [| assumption].
    change 0%Q with (inject_Z 0). rewrite <- Zlt_Qlt. lia. }
  destruct (round_pos_cases q Hq) as [[_ Ex] | (r & -> & Er & _)].
  - exfalso. rewrite En, Eq in Ex.
    assert (inject_Z m * 2 ^ e < 2 ^ 53 * 2 ^ 971)%Q as Hlt.
    { apply Qlt_le_trans with (2 ^ 53 * 2 ^ e)%Q.
      - apply Qmult_lt_compat_r; [assumption |].
        rewrite <- (p2_Z 53) by lia. rewrite <- Zlt_Qlt. lia.
      - apply Qmult_le_l; [apply p2_pos | apply p2_le; lia]. }
    rewrite <- p2_plus in Hlt. change (53 + 971) with 1024 in Hlt. lra.
  - simpl. apply Qeq_bool_iff. lra.
Qed.

(** Rounding to nearest, ties to even, is a sound rounding. *)
Lemma round64_sound : sound_rounding round64.
Proof.
  split.
  - intros x y Hxy. unfold round64.
    destruct (Qcompare_spec x 0) as [Hx | Hx | Hx];
      destruct (Qcompare_spec y 0) as [Hy | Hy | Hy]; try lra.
    + reflexivity.
    + apply round_pos_sign. exact Hy.
    + apply opp_nonpos. apply round_pos_sign. lra.
    + rewrite leb_opp. apply round_pos_mono; lra.
    + apply leb_trans with (Fin 0).
      * apply opp_nonpos. apply round_pos_sign. lra.
      * apply round_pos_sign. exact Hy.
    + apply round_pos_mono; assumption.
  - intros q (m & e & Hm & He & Eq). unfold round64.
    pose proof (p2_pos e) as Hpe.
    destruct (Z.lt_trichotomy m 0) as [Hneg | [-> | Hpos]].
    + assert (inject_Z m < 0)%Q as Hmq.
      { change 0%Q with (inject_Z 0). rewrite <- Zlt_Qlt. lia. }
      assert (q < 0)%Q as Hq by (rewrite Eq; nra).
      destruct (Qcompare_spec q 0) as [H | H | H]; try lra.
      assert (Num.eqb (round_pos (- q)) (Fin (- q)) = true) as Hr.
      { apply (round_pos_exact (- q) (- m) e); [lia | lia |].
        rewrite Eq, inject_Z_opp. ring. }
      destruct (round_pos (- q)) as [| | |r]; simpl in *; try discriminate.
      apply Qeq_bool_iff in Hr. apply Qeq_bool_iff. lra.
    + assert (q == 0)%Q as Hq by (rewrite Eq; ring).
      destruct (Qcompare_spec q 0) as [H | H | H]; try lra.
      simpl. apply Qeq_bool_iff. lra.
    + assert (0 < inject_Z m)%Q as Hmq.
      { change 0%Q with (inject_Z 0). rewrite <- Zlt_Qlt. lia. }
      assert (0 < q)%Q as Hq by (rewrite Eq; nra).
      destruct (Qcompare_spec q 0) as [H | H | H]; try lra.
      apply (round_pos_exact q m e); [lia | lia | exact Eq].
Qed.

(* ================================================================== *)
(** ** How far rounding moves a number *)
(* ================================================================== *)

Section Grid.

Variable r : Q -> num.
Hypothesis sound : sound_rounding r.

(** Rounding goes up by less than the step of any grid of binary64 values
    that covers the argument. *)
Lemma rnd_grid (e : Z) (y : Q) :
  0 <= e <= 1074 -> (0 <= y)%Q -> (y * 2 ^ e <= inject_Z (2 ^ 53 - 1))%Q ->
  exists q, r y = Fin q /\ (0 <= q <= y + 2 ^ (- e))%Q.
Proof.
  intros He Hy Hb. pose proof (p2_pos e) as Hpe. pose proof (p2_pos (- e)) as Hne.
  set (c := Qceiling (y * 2 ^ e)).
  assert (0 <= c <= 2 ^ 53 - 1) as Hc.
  { split.
    - change 0 with (Qceiling 0). apply Qceiling_resp_le. nra.
    - rewrite <- (Qceiling_Z (2 ^ 53 - 1)). apply Qceiling_resp_le. exact Hb. }
  pose proof (Qle_ceiling (y * 2 ^ e)) as Hc1. fold c in Hc1.
  pose proof (Qceiling_lt (y * 2 ^ e)) as Hc2. fold c in Hc2.
  assert (inject_Z (c - 1) == inject_Z c - 1)%Q as Ec
      by (unfold Z.sub; rewrite inject_Z_plus; reflexivity).
  rewrite Ec in Hc2.
  pose proof (p2_cancel e) as Hcancel.
  assert (y <= inject_Z c * 2 ^ (- e) <= y + 2 ^ (- e))%Q as [Hlo Hhi].
  { split.
    - assert (y == y * (2 ^ e * 2 ^ (- e)))%Q as -> by (rewrite Hcancel; ring).
      rewrite Qmult_assoc. apply Qmult_le_compat_r; lra.
    - assert (y + 2 ^ (- e) == (y * 2 ^ e + 1) * 2 ^ (- e))%Q as ->.
      { assert (y == y * (2 ^ e * 2 ^ (- e)))%Q as E' by (rewrite Hcancel; ring).
        rewrite E' at 1. ring. }
      apply Qmult_le_compat_r; lra. }
  destruct (rnd_between r sound 0 (inject_Z c * 2 ^ (- e)) y) as (q & E & Hq).
  - apply (binary64_Z 0). reflexivity.
  - exists c, (- e). split; [lia |]. split; [lia | reflexivity].
  - split; [exact Hy | exact Hlo].
  - exists q. split; [exact E | lra].
Qed.


End Grid.

(* ================================================================== *)
(** ** The scale and the step count *)
(* ================================================================== *)

Section Scale.

Variable host : Host.
Hypothesis sound : sound_rounding (rnd host).

(** A positive bound over a size that fits gives a ratio of at least 1;
    over a zero size it gives infinity. *)
Lemma ratio_fits (m w : Z) :
  0 < m -> 0 <= w <= m -> at_least 1 (num_div host (of_Z m) (of_Z w)).
Proof.
  intros Hm [Hw0 Hwm]. unfold num_div, Num.div, of_Z.
  pose proof (inject_Z_lt0 m Hm) as Hmq.
  destruct (Z.eq_dec w 0) as [-> | Hw].
  - rewrite Qis_zero_true by reflexivity.
    rewrite Qis_zero_false by lra.
    rewrite Qsign_neg_false by lra. now left.
  - assert (0 < w) as Hwpos by lia.
    pose proof (inject_Z_lt0 w Hwpos) as Hwq.
    rewrite Qis_zero_false by lra.
    apply (rnd_lower (rnd host) sound).
    + apply (binary64_Z 1). reflexivity.
    + apply Qle_shift_div_l; [assumption |].
      rewrite Qmult_1_l. rewrite <- Zle_Qle. exact Hwm.
Qed.

(** A positive bound over any non-negative size gives a ratio that is
    not negative. *)
Lemma ratio_nonneg (m w : Z) :
  0 < m -> 0 <= w -> at_least 0 (num_div host (of_Z m) (of_Z w)).
Proof.
  intros Hm Hw0. unfold num_div, Num.div, of_Z.
  pose proof (inject_Z_lt0 m Hm) as Hmq.
  destruct (Z.eq_dec w 0) as [-> | Hw].
  - rewrite Qis_zero_true by reflexivity.
    rewrite Qis_zero_false by lra.
    rewrite Qsign_neg_false by lra. now left.
  - assert (0 < w) as Hwpos by lia.
    pose proof (inject_Z_lt0 w Hwpos) as Hwq.
    rewrite Qis_zero_false by lra.
    apply (rnd_lower (rnd host) sound).
    + apply (binary64_Z 0). reflexivity.
    + apply Qle_shift_div_l; [assumption |]. lra.
Qed.

(** With positive bounds and a canvas whose size is not negative the
    scale is a number between 0 and 1. *)
Lemma scaleFor_unit (cfg : Config) (canvas : Canvas) :
  0 < maxWidth cfg -> 0 < maxHeight cfg ->
  0 <= canvas_width canvas -> 0 <= canvas_height canvas ->
  exists s, scaleFor host cfg canvas = Fin s /\ (0 <= s <= 1)%Q.
Proof.
  intros Hw Hh Hcw Hch. unfold scaleFor, min3.
  destruct (min2_unit 1 (num_div host (of_Z (maxWidth cfg)) (of_Z (canvas_width canvas))))
    as (s1 & E1 & H1).
  { lra. }
  { apply ratio_nonneg; assumption. }
  change (of_Z 1) with (Fin 1). rewrite E1.
  apply min2_unit; [exact H1 |].
  apply ratio_nonneg; assumption.
Qed.

(** For a scale strictly between 0 and 1 the step count is 2, 3 or 4. *)
Lemma stepsFor_downscale (s : Q) :
  (0 < s < 1)%Q ->
  exists n, 2 <= n <= 4 /\ stepsFor host (Fin s) = of_Z n.
Proof.
  intros [Hs0 Hs1]. unfold stepsFor.
  apply min2_MAX_STEPS; [lia |].
  apply ceil_at_least with (c := (5 # 4)%Q); [reflexivity |].
  assert (at_least 1 (num_div host (of_Z 1) (Fin s))) as H1.
  { unfold num_div, Num.div, of_Z.
    rewrite Qis_zero_false by lra.
    apply (rnd_lower (rnd host) sound).
    - apply (binary64_Z 1). reflexivity.
    - apply Qle_shift_div_l; [assumption |]. unfold inject_Z. lra. }
  destruct H1 as [-> | (a & -> & Ha)].
  - left. reflexivity.
  - unfold num_div, Num.div, SCALE_FACTOR.
    rewrite Qis_zero_false by (intros E; discriminate E).
    apply (rnd_lower (rnd host) sound).
    + exact binary64_five_quarters.
    + apply Qle_shift_div_l; [reflexivity |].
      apply Qle_trans with 1%Q; [| exact Ha].
      vm_compute. discriminate.
Qed.

(** For a scale of 0 the step count is 4. *)
Lemma stepsFor_zero (s : Q) :
  (s == 0)%Q -> stepsFor host (Fin s) = of_Z 4.
Proof.
  intros Hs. unfold stepsFor.
  assert (num_div host (of_Z 1) (Fin s) = PInf) as ->.
  { unfold num_div, Num.div, of_Z.
    rewrite (Qis_zero_true s Hs).
    rewrite Qis_zero_false by (intros E; discriminate E).
    rewrite Qsign_neg_false by (unfold inject_Z; lra).
    reflexivity. }
  reflexivity.
Qed.


End Scale.

(* ================================================================== *)
(** ** The step count against the exact quotient *)
(* ================================================================== *)



Section Quotient.

Variable host : Host.
Hypothesis sound : sound_rounding (rnd host).



End Quotient.


(* ================================================================== *)
(** ** The loop of [drawImage] *)
(* ================================================================== *)

(** [clear] leaves the size of the canvas as it is. *)
Lemma clear_size (this : Compress) (c : Canvas) (w h : Z) :
  canvas_width (clear this c w h) = canvas_width c /\
  canvas_height (clear this c w h) = canvas_height c.
Proof.
  unfold clear. destruct (outputType this) as [t|]; [destruct (String.eqb t DEFAULT_TYPE) |];
    split; reflexivity.
Qed.

Section Loop.

Variable host : Host.
Variable this : Compress.
Variables steps factor : num.

(** A pass that goes on moves [i] by one and takes the pair it computed as
    the next width and height. *)
Lemma body_next (st st' : Loop) :
  body host this steps factor st = Next st' ->
  l_i st' = l_i st + 1 /\
  l_width st' = width (scaled host factor st) /\
  l_height st' = height (scaled host factor st).
Proof.
  unfold body. destruct (zero_sized _); [discriminate |].
  destruct (Num.eqb _ steps); [destruct (empty_rectangle _ _); discriminate |].
  intros H. injection H as <-. auto.
Qed.

(** The canvas a pass returns has the pair it computed as its size, and
    neither field is 0. *)
Lemma body_return (st : Loop) (canvas : Canvas) :
  body host this steps factor st = Return canvas ->
  canvas_dimension canvas = scaled host factor st /\
  width (scaled host factor st) <> 0 /\ height (scaled host factor st) <> 0.
Proof.
  unfold body. destruct (zero_sized _); [discriminate |].
  destruct (Num.eqb _ steps); [| discriminate].
  destruct (empty_rectangle _ _) eqn:E; [discriminate |].
  intros H. injection H as <-. split; [reflexivity |].
  unfold empty_rectangle in E. apply orb_false_elim in E. destruct E as [Ew Eh].
  apply Z.eqb_neq in Ew. apply Z.eqb_neq in Eh. auto.
Qed.

(** Only the pass that takes [i] to the step count returns. *)
Lemma body_return_index (st : Loop) (canvas : Canvas) :
  body host this steps factor st = Return canvas ->
  Num.eqb (of_Z (l_i st + 1)) steps = true.
Proof.
  unfold body. destruct (zero_sized _); [discriminate |].
  destruct (Num.eqb _ steps); [reflexivity | discriminate].
Qed.

(** What a pass throws, and when. *)
Lemma body_throw (st : Loop) (e : rejection) :
  body host this steps factor st = Throw e ->
  (zero_sized (drawn_from st) = true /\ e = InvalidStateError) \/
  (zero_sized (drawn_from st) = false /\
   Num.eqb (of_Z (l_i st + 1)) steps = true /\
   empty_rectangle (width (scaled host factor st)) (height (scaled host factor st)) = true /\
   e = IndexSizeError).
Proof.
  unfold body, drawn_from. destruct (zero_sized _); [intros [= <-]; auto |].
  destruct (Num.eqb _ steps); [| discriminate].
  destruct (empty_rectangle _ _); [| discriminate].
  intros [= <-]. right. auto.
Qed.

(** The pass that takes [i] to the step count runs the final-step branch:
    it returns a canvas, or [getImageData] throws in it. *)
Lemma body_last (st : Loop) :
  zero_sized (drawn_from st) = false ->
  Num.eqb (of_Z (l_i st + 1)) steps = true ->
  if empty_rectangle (width (scaled host factor st)) (height (scaled host factor st))
  then body host this steps factor st = Throw IndexSizeError
  else exists canvas, body host this steps factor st = Return canvas.
Proof.
  unfold drawn_from. intros Hz H. unfold body. rewrite Hz, H.
  destruct (empty_rectangle _ _); eauto.
Qed.

(** Every other pass goes on. *)
Lemma body_not_last (st : Loop) :
  zero_sized (drawn_from st) = false ->
  Num.eqb (of_Z (l_i st + 1)) steps = false ->
  exists st', body host this steps factor st = Next st'.
Proof.
  unfold drawn_from. intros Hz H. unfold body. rewrite Hz, H. eauto.
Qed.

(** A pass that goes on leaves the size of both buffers as it was. *)
Lemma body_keeps_buffers (st st' : Loop) (D : Dimension) :
  canvas_dimension (l_source st) = D ->
  canvas_dimension (l_mirror st) = D ->
  body host this steps factor st = Next st' ->
  canvas_dimension (l_source st') = D /\ canvas_dimension (l_mirror st') = D.
Proof.
  intros Hs Hm. unfold body.
  assert (forall c w h d, canvas_dimension (draw (clear this c w h) d) = canvas_dimension c)
    as Hd.
  { intros c w h d. unfold canvas_dimension.
    destruct (clear_size this c w h) as [Ew Eh].
    cbn [draw canvas_width canvas_height]. rewrite Ew, Eh. reflexivity. }
  destruct (zero_sized _); [discriminate |].
  destruct (Num.eqb _ steps); [destruct (empty_rectangle _ _); discriminate |].
  intros H. injection H as <-. cbn [l_source l_mirror].
  destruct (l_i st mod 2 =? 0); split; try assumption; rewrite Hd; assumption.
Qed.

(** With buffers of a size that has no 0 in it, [drawImage] does not
    throw in a pass. *)
Lemma drawn_from_usable (st : Loop) (D : Dimension) :
  width D <> 0 -> height D <> 0 ->
  canvas_dimension (l_source st) = D ->
  canvas_dimension (l_mirror st) = D ->
  zero_sized (drawn_from st) = false.
Proof.
  intros Hw Hh Hs Hm. unfold drawn_from, zero_sized.
  assert (forall c, canvas_dimension c = D ->
                    (canvas_width c =? 0) || (canvas_height c =? 0) = false) as Hc.
  { intros c E. unfold canvas_dimension in E. rewrite <- E in Hw, Hh. simpl in Hw, Hh.
    apply orb_false_intro; apply Z.eqb_neq; assumption. }
  destruct (l_i st mod 2 =? 0); auto.
Qed.

End Loop.

(** The canvas the loop returns has the size of one of the pairs, and no
    side of 0. *)
Lemma while_in_passes (host : Host) (this : Compress) (steps factor : num)
      (canvas : Canvas) :
  forall (fuel : nat) (st : Loop),
    while host fuel this steps factor st = Returned canvas ->
    In (canvas_dimension canvas) (passes host fuel this steps factor st) /\
    canvas_width canvas <> 0 /\ canvas_height canvas <> 0.
Proof.
  induction fuel as [| fuel IH]; intros st; [discriminate |].
  cbn [while passes]. destruct (Num.ltb (of_Z (l_i st)) steps); [| discriminate].
  destruct (body host this steps factor st) as [st' | c | e] eqn:Hb.
  - intros H. destruct (IH st' H) as (Hin & Hnz).
    split; [right; exact Hin | exact Hnz].
  - intros H. injection H as ->.
    destruct (body_return host this steps factor st canvas Hb) as (E & Hw & Hh).
    split; [left; symmetry; exact E |].
    unfold canvas_dimension in E. rewrite <- E in Hw, Hh. simpl in Hw, Hh. auto.
  - discriminate.
Qed.

(** The loop with a step count [n], entered at [i < n] with buffers of a
    size that has no 0 in it and fuel for the passes that remain: it makes
    [n - i] passes and ends in the final-step branch of the pass that takes
    [i] to [n], with the canvas that branch returns or with the exception
    of [getImageData]. *)
Lemma while_run (host : Host) (this : Compress) (factor : num) (n : Z) (D : Dimension) :
  width D <> 0 -> height D <> 0 ->
  forall (fuel : nat) (st : Loop),
    0 <= l_i st < n -> (Z.to_nat (n - l_i st) <= fuel)%nat ->
    canvas_dimension (l_source st) = D -> canvas_dimension (l_mirror st) = D ->
    exists last : Loop,
      l_i last + 1 = n /\
      List.length (passes host fuel this (of_Z n) factor st) = Z.to_nat (n - l_i st) /\
      (forall d : Dimension,
          List.last (passes host fuel this (of_Z n) factor st) d = scaled host factor last) /\
      match body host this (of_Z n) factor last with
      | Return canvas => while host fuel this (of_Z n) factor st = Returned canvas
      | Throw e => e = IndexSizeError /\
                   while host fuel this (of_Z n) factor st = Thrown IndexSizeError
      | Next _ => False
      end.
Proof.
  intros HDw HDh.
  induction fuel as [| fuel IH]; intros st Hi Hf Hs Hm; [lia |].
  cbn [while passes]. rewrite of_Z_ltb. destruct (Z.ltb_spec (l_i st) n); [| lia].
  pose proof (drawn_from_usable st D HDw HDh Hs Hm) as Hu.
  destruct (Z.eq_dec (l_i st + 1) n) as [E | E].
  - exists st. split; [exact E |].
    assert (Num.eqb (of_Z (l_i st + 1)) (of_Z n) = true) as Hlast.
    { rewrite of_Z_eqb. apply Z.eqb_eq. exact E. }
    pose proof (body_last host this (of_Z n) factor st Hu Hlast) as Hb.
    destruct (empty_rectangle _ _).
    + rewrite Hb. split; [simpl; lia |]. split; [reflexivity |]. split; reflexivity.
    + destruct Hb as (c & ->). split; [simpl; lia |]. split; reflexivity.
  - destruct (body_not_last host this (of_Z n) factor st Hu) as (st' & Hb).
    { rewrite of_Z_eqb. apply Z.eqb_neq. exact E. }
    rewrite Hb.
    destruct (body_next host this (of_Z n) factor st st' Hb) as (Hi' & _ & _).
    destruct (body_keeps_buffers host this (of_Z n) factor st st' D Hs Hm Hb) as [Hs' Hm'].
    destruct (IH st') as (last & Hl & Hlen & Hlast & Hend); try assumption; try lia.
    exists last. split; [exact Hl |]. split; [| split].
    + cbn [List.length]. rewrite Hlen. lia.
    + intros d.
      destruct (passes host fuel this (of_Z n) factor st') as [| d' l] eqn:P.
      * simpl in Hlen. lia.
      * change (List.last (?a :: d' :: l) d) with (List.last (d' :: l) d). apply Hlast.
    + exact Hend.
Qed.

(** The loop ends within the fuel [drawImage] gives it. *)
Lemma while_settles (host : Host) (this : Compress) (steps factor : num) :
  (steps = NaN \/ steps = NInf \/ exists q, steps = Fin q /\ (q <= 4)%Q) ->
  forall (fuel : nat) (st : Loop),
    l_i st <= 4 -> 5 <= Z.of_nat fuel + l_i st ->
    while host fuel this steps factor st <> OutOfFuel.
Proof.
  intros Hsteps. induction fuel as [| fuel IH]; intros st Hi Hf; [lia |].
  cbn [while]. destruct (Num.ltb (of_Z (l_i st)) steps) eqn:Hlt; [| discriminate].
  assert (l_i st < 4) as Hi'.
  { destruct Hsteps as [-> | [-> | (q & -> & Hq)]]; try discriminate Hlt.
    unfold of_Z in Hlt; simpl in Hlt.
    destruct (Qlt_le_dec (inject_Z (l_i st)) q) as [H | H]; [| discriminate].
    assert (inject_Z (l_i st) < inject_Z 4)%Q as H4 by (unfold inject_Z at 2; lra).
    rewrite <- Zlt_Qlt in H4. exact H4. }
  destruct (body host this steps factor st) as [st' | c | e] eqn:Hb; try discriminate.
  apply body_next in Hb. destruct Hb as (Hb & _ & _). apply IH; rewrite Hb; lia.
Qed.

(** [drawImage] returns a canvas or [undefined], or throws: the model's
    fuel is never what stops the loop. *)
Lemma drawImage_settles (host : Host) (this : Compress) (source : Canvas) (scale : num) :
  drawImage host this source scale <> OutOfFuel.
Proof.
  unfold drawImage. destruct (Num.eqb scale (of_Z 1)); [discriminate |].
  apply while_settles.
  - unfold stepsFor. apply min2_MAX_STEPS_bound.
  - simpl. lia.
  - simpl. lia.
Qed.

(** The step count of a scale from 0 up to, but not, 1. *)
Lemma stepsFor_unit (host : Host) (s : Q) :
  sound_rounding (rnd host) ->
  (0 <= s < 1)%Q ->
  exists n, 2 <= n <= 4 /\ stepsFor host (Fin s) = of_Z n.
Proof.
  intros sound [Hs0 Hs1].
  destruct (Qlt_le_dec 0 s) as [Hpos | Hzero].
  - apply (stepsFor_downscale host sound s). split; assumption.
  - exists 4. split; [lia |]. apply (stepsFor_zero host s). lra.
Qed.

(** [drawImage] with a step count [n] from 1 to 4, on a source with no side
    of 0 and a scale that is not 1: what [while_run] says of the loop. *)
Lemma drawImage_run (host : Host) (this : Compress) (source : Canvas)
      (scale : num) (n : Z) :
  Num.eqb scale (of_Z 1) = false ->
  stepsFor host scale = of_Z n ->
  1 <= n <= 4 ->
  canvas_width source <> 0 -> canvas_height source <> 0 ->
  exists last : Loop,
    l_i last + 1 = n /\
    List.length (step_dimensions host this source scale) = Z.to_nat n /\
    (forall d : Dimension,
        List.last (step_dimensions host this source scale) d
        = scaled host (factorFor host scale) last) /\
    match body host this (of_Z n) (factorFor host scale) last with
    | Return canvas => drawImage host this source scale = Returned canvas
    | Throw e => e = IndexSizeError /\
                 drawImage host this source scale = Thrown IndexSizeError
    | Next _ => False
    end.
Proof.
  intros H1 En Hn Hw Hh. unfold step_dimensions, drawImage. rewrite H1, En.
  destruct (while_run host this (factorFor host scale) n (canvas_dimension source)
                      Hw Hh loop_fuel (enter source))
    as (last & Hl & Hlen & Hlast & Hend).
  - unfold enter; cbn [l_i]; lia.
  - unfold enter, loop_fuel; cbn [l_i]; lia.
  - reflexivity.
  - reflexivity.
  - exists last. split; [exact Hl |]. split; [| split; assumption].
    rewrite Hlen. unfold enter; cbn [l_i]. f_equal. lia.
Qed.

(** The last of a list is one of its elements. *)
Lemma last_In (l : list Dimension) (d : Dimension) : l <> [] -> In (List.last l d) l.
Proof.
  induction l as [| a [| b l] IH]; intros H.
  - contradiction.
  - left. reflexivity.
  - right. apply IH. discriminate.
Qed.

(** [drawImage] on a source with no side of 0 returns a canvas when no pair
    the loop computes has a 0 in it: the canvas has the size of the last
    pair. *)
Lemma drawImage_returns (host : Host) (this : Compress) (source : Canvas)
      (scale : num) (n : Z) :
  Num.eqb scale (of_Z 1) = false ->
  stepsFor host scale = of_Z n ->
  1 <= n <= 4 ->
  canvas_width source <> 0 -> canvas_height source <> 0 ->
  Forall (fun d : Dimension => width d <> 0 /\ height d <> 0)
         (step_dimensions host this source scale) ->
  exists (canvas : Canvas) (last : Loop),
    drawImage host this source scale = Returned canvas /\
    l_i last + 1 = n /\
    body host this (of_Z n) (factorFor host scale) last = Return canvas /\
    forall d : Dimension,
      List.last (step_dimensions host this source scale) d = canvas_dimension canvas.
Proof.
  intros H1 En Hn Hw Hh Hall.
  destruct (drawImage_run host this source scale n H1 En Hn Hw Hh)
    as (last & Hl & Hlen & Hlast & Hend).
  assert (step_dimensions host this source scale <> []) as Hne.
  { intros E. rewrite E in Hlen. simpl in Hlen. lia. }
  pose proof (last_In _ {| width := 0; height := 0 |} Hne) as Hin.
  rewrite Hlast in Hin. rewrite Forall_forall in Hall. apply Hall in Hin.
  destruct (body host this (of_Z n) (factorFor host scale) last) as [st' | c | e] eqn:Hb.
  - contradiction.
  - exists c, last. split; [exact Hend |]. split; [exact Hl |]. split; [exact Hb |].
    intros d. rewrite Hlast. symmetry.
    apply (body_return host this (of_Z n) (factorFor host scale) last c Hb).
  - exfalso. destruct Hend as [-> _].
    destruct (body_throw host this (of_Z n) (factorFor host scale) last _ Hb)
      as [[_ E] | (_ & _ & E & _)]; [discriminate |].
    unfold empty_rectangle in E. apply orb_true_iff in E.
    destruct Hin as [Hnw Hnh]. destruct E as [E | E]; apply Z.eqb_eq in E; contradiction.
Qed.



(* ================================================================== *)
(** ** The sizes the loop computes *)
(* ================================================================== *)

Section Passes.

Variable host : Host.
Hypothesis sound : sound_rounding (rnd host).
Variable f : Q.
Hypothesis unit_factor : (0 <= f <= 1)%Q.

(** One product [width * factor | 0]: it is between 0 and [width], and at
    least 1 when the product is. *)
Lemma pass_size (w : Z) :
  0 <= w < 2 ^ 31 ->
  0 <= to_int32 (num_mul host (of_Z w) (Fin f)) <= w /\
  ((1 <= inject_Z w * f)%Q -> 1 <= to_int32 (num_mul host (of_Z w) (Fin f))).
Proof.
  intros Hw. unfold num_mul, Num.mul, of_Z.
  assert (0 <= inject_Z w)%Q as Hwq.
  { change 0%Q with (inject_Z 0). rewrite <- Zle_Qle. lia. }
  assert (0 <= inject_Z w * f <= inject_Z w)%Q as Hp.
  { split; nra. }
  destruct (rnd_between (rnd host) sound 0 (inject_Z w) (inject_Z w * f))
    as (q & E & Hq0 & Hqw).
  { apply (binary64_Z 0). reflexivity. }
  { apply binary64_Z. lia. }
  { exact Hp. }
  rewrite E. unfold to_int32. rewrite (Qtrunc_nonneg q Hq0).
  assert (0 <= Qfloor q <= w) as Hfl.
  { split.
    - change 0 with (Qfloor 0). apply Qfloor_resp_le. exact Hq0.
    - rewrite <- (Qfloor_Z w). apply Qfloor_resp_le. exact Hqw. }
  rewrite wrap32_small by lia.
  split; [exact Hfl |].
  intros H1.
  destruct (rnd_lower (rnd host) sound 1 (inject_Z w * f)) as [E' | (q' & E' & Hq')].
  { apply (binary64_Z 1). reflexivity. }
  { exact H1. }
  - rewrite E in E'. discriminate.
  - rewrite E in E'. injection E' as <-.
    change 1 with (Qfloor 1). apply Qfloor_resp_le. exact Hq'.
Qed.

Variable this : Compress.
Variable steps : num.



End Passes.

(** A width of one pixel times a binary64 factor below 1 truncates to 0,
    whatever the rounding. *)
Lemma one_pixel_vanishes (host : Host) (f : Q) :
  sound_rounding (rnd host) -> binary64 f -> (0 <= f < 1)%Q ->
  to_int32 (num_mul host (of_Z 1) (Fin f)) = 0.
Proof.
  intros sound Hb [Hf0 Hf1]. unfold num_mul, Num.mul, of_Z.
  assert (binary64 (inject_Z 1 * f)) as Hb'.
  { destruct Hb as (m & e & Hm & He & E). exists m, e.
    split; [exact Hm |]. split; [exact He |].
    apply Qeq_trans with f; [unfold inject_Z; ring | exact E]. }
  destruct (eqb_Fin_inv _ _ (rnd_exact (rnd host) sound _ Hb')) as (q & -> & Eq).
  assert (0 <= q < 1)%Q as [Hq0 Hq1] by (unfold inject_Z in Eq; lra).
  unfold to_int32. rewrite (Qtrunc_nonneg q Hq0).
  assert (Qfloor q = 0) as ->; [| reflexivity].
  pose proof (Qfloor_resp_le 0 q Hq0) as H0. change (Qfloor 0) with 0 in H0.
  pose proof (Qfloor_le q) as H1.
  assert (inject_Z (Qfloor q) < inject_Z 1)%Q as H2 by (unfold inject_Z at 2; lra).
  rewrite <- Zlt_Qlt in H2. lia.
Qed.

(* ================================================================== *)
(** ** The chain of [process] *)
(* ================================================================== *)

(** The canvas [getOriginInfo] resolves with has the size [getTransform]
    gave for the orientation that was read. *)
Lemma getOriginInfo_size (host : Host) (this : Compress) (img : Image) :
  exists tag : Z,
    canvas_width (getOriginInfo host this img) = t_width (getTransform host img tag) /\
    canvas_height (getOriginInfo host this img) = t_height (getTransform host img tag).
Proof.
  unfold getOriginInfo.
  set (tag := match exifOrientation host img with Some 0 | None => 1 | Some t => t end).
  exists tag. cbn [draw canvas_width canvas_height].
  destruct (clear_size this
              (set_height (set_width createCanvas (t_width (getTransform host img tag)))
                          (t_height (getTransform host img tag)))
              (t_width (getTransform host img tag))
              (t_height (getTransform host img tag))) as [-> ->].
  split; reflexivity.
Qed.

(** The gates do not read [outputType]: they overwrite it. *)
Lemma gates_overwrite (this : Compress) (t : option string) (file : Blob) :
  gates {| config := config this; outputType := t |} file = gates this file.
Proof. reflexivity. Qed.

(** The size guard hands back a blob no larger than the file. *)
Lemma sizeGuard_size (file : Blob) (sd : Dimension) (distBlob : Blob) (dd : Dimension) :
  size (blob (sizeGuard file sd distBlob dd)) <= size file.
Proof.
  unfold sizeGuard. destruct (size file <? size distBlob) eqn:E; simpl; lia.
Qed.

(** A call that resolves went through the whole chain: the image loaded,
    [drawImage] returned a canvas, the data URL decoded to a blob, and the
    outcome was built by the size guard from these.  The instance handed
    back is the one the gates left. *)
Lemma process_resolved (host : Host) (this this' : Compress) (file : Blob)
      (ev : list event) (o : Outcome) :
  process host this file = (this', ev, Resolved o) ->
  exists (img : Image) (result : Canvas) (distBlob : Blob),
    loadImage host file = Some img /\
    drawImage host this' (getOriginInfo host this' img)
              (scaleFor host (config this') (getOriginInfo host this' img))
    = Returned result /\
    dataURLToBlob host this'
      (toDataURL host result (outputType this') (quality (config this')))
    = Some distBlob /\
    o = {| dist := sizeGuard file (image_dimension img) distBlob
                             (canvas_dimension result);
           source := {| blob := file; dimension := image_dimension img |} |}.
Proof.
  unfold process. destruct (gates this file) as [[this1 ev1] [e|]] eqn:G.
  - discriminate.
  - unfold chain. destruct (loadImage host file) as [img|] eqn:L; [| discriminate].
    destruct (drawImage _ _ _ _) as [result| |e|] eqn:D; try discriminate.
    unfold finish.
    destruct (dataURLToBlob _ _ _) as [distBlob|] eqn:B; [| discriminate].
    intros H. injection H as <- _ <-.
    exists img, result, distBlob. auto.
Qed.

(** [process] settles: its promise is resolved or rejected. *)
Lemma process_settles (host : Host) (this : Compress) (file : Blob) :
  snd (process host this file) <> Unsettled.
Proof.
  unfold process. destruct (gates this file) as [[this1 ev1] [e|]]; [discriminate |].
  unfold chain. destruct (loadImage host file) as [img|]; [| discriminate].
  destruct (drawImage _ _ _ _) as [result| |e|] eqn:D.
  - unfold finish. destruct (dataURLToBlob _ _ _); discriminate.
  - discriminate.
  - discriminate.
  - exfalso. exact (drawImage_settles _ _ _ _ D).
Qed.

(* ================================================================== *)
(** ** The pipeline on the example host *)
(* ================================================================== *)

(** [atob] of a payload with padding. *)
Example base64_decode_jpeg :
  option_map charCodes (base64_decode "/9j/4A==")
  = Some [Byte.xff; Byte.xd8; Byte.xff; Byte.xe0].
Proof. reflexivity. Qed.

(** The fourth root of 1/16. *)
Example demo_pow_sixteenth :
  Num.eqb (demo_pow (Fin (1 # 16)) (Fin (1 # 4))) (Fin (1 # 2)) = true.
Proof. vm_compute. reflexivity. Qed.

(** The payload of a data URL is what follows the comma. *)
Example split_data_url :
  split "," "data:image/png;base64,iVBORw0K"
  = ["data:image/png;base64"; "iVBORw0K"]%string.
Proof. reflexivity. Qed.

(** The step count for a scale of 0.1, the binary64 value. *)
Example stepsFor_tenth : stepsFor (demo_host 1 1) (round64 (1 # 10)) = of_Z 4.
Proof. vm_compute. reflexivity. Qed.

(** An image within the bounds is encoded at its own size. *)
Example process_png_fits :
  process (demo_host 800 600) fresh (png_file 10)
  = (with_outputType fresh "image/png",
     [Load (png_file 10); ToDataURL (Some "image/png"%string) (92 # 100)],
     Resolved
       {| dist := {| blob := {| blob_type := "image/png"; blob_data := png_signature |};
                     dimension := {| width := 800; height := 600 |} |};
          source := {| blob := png_file 10;
                       dimension := {| width := 800; height := 600 |} |} |}).
Proof. vm_compute. reflexivity. Qed.

(** An image twice the bounds goes through three passes of the loop, each
    truncating, and comes out one pixel short of the bounds. *)
Example process_png_downscaled :
  exists this ev blob,
    process (demo_host 3200 2400) fresh (png_file 10)
    = (this, ev,
       Resolved
         {| dist := {| blob := blob; dimension := {| width := 1599; height := 1199 |} |};
            source := {| blob := png_file 10;
                         dimension := {| width := 3200; height := 2400 |} |} |}).
Proof. do 3 eexists. vm_compute. reflexivity. Qed.

(** An image one pixel wide and sixteen times as high as the bound: every
    pass computes a width of 0, [getImageData] throws in the last pass,
    and the promise is rejected with its exception. *)
Example process_narrow_image :
  process (demo_host 1 25600) fresh (png_file 10)
  = (with_outputType fresh "image/png", [Load (png_file 10)], Rejected IndexSizeError).
Proof. vm_compute. reflexivity. Qed.

(** An image that does not load: the fallback is logged, the load is tried,
    and the promise is rejected with the reason of [getOriginImage]. *)
Example process_load_error :
  process broken_host fresh (gif_file 10)
  = (with_outputType fresh DEFAULT_TYPE,
     [fallback_warning "image/gif"; Load (gif_file 10)],
     Rejected (Reason "image load error")).
Proof. reflexivity. Qed.

(* ================================================================== *)
(** ** The claims *)
(* ================================================================== *)

(** C1. Every outcome [process] resolves with has a [dist] blob that is no
    larger than the [source] blob. *)
Theorem dist_not_larger_than_source (host : Host) (this this' : Compress) (file : Blob)
        (ev : list event) (o : Outcome) :
  process host this file = (this', ev, Resolved o) ->
  size (blob (dist o)) <= size (blob (source o)).
Proof.
  intros H. apply process_resolved in H.
  destruct H as (img & result & distBlob & _ & _ & _ & ->). simpl.
  apply sizeGuard_size.
Qed.

Lemma dist_not_larger_than_source_witness :
  size (blob (dist {| dist := {| blob := {| blob_type := "image/png";
                                            blob_data := png_signature |};
                                 dimension := {| width := 800; height := 600 |} |};
                      source := {| blob := png_file 10;
                                   dimension := {| width := 800; height := 600 |} |} |}))
  <= size (png_file 10).
Proof.
  apply (dist_not_larger_than_source (demo_host 800 600) fresh
           (with_outputType fresh "image/png") (png_file 10)
           [Load (png_file 10); ToDataURL (Some "image/png"%string) (92 # 100)]).
  vm_compute. reflexivity.
Defined.

(** C2. When [process] resolves, the [dist] entry is the file with the
    dimensions of the loaded image if the re-encoded blob is strictly
    larger than the file, and otherwise the re-encoded blob with the
    dimensions of the canvas it was encoded from; the [source] entry is the
    file with the dimensions of the loaded image. *)
Theorem size_guard_choice (host : Host) (this this' : Compress) (file : Blob)
        (ev : list event) (o : Outcome) :
  process host this file = (this', ev, Resolved o) ->
  exists (img : Image) (result : Canvas) (distBlob : Blob),
    loadImage host file = Some img /\
    drawImage host this' (getOriginInfo host this' img)
              (scaleFor host (config this') (getOriginInfo host this' img))
    = Returned result /\
    dataURLToBlob host this'
      (toDataURL host result (outputType this') (quality (config this')))
    = Some distBlob /\
    source o = {| blob := file; dimension := image_dimension img |} /\
    (size file < size distBlob ->
     dist o = {| blob := file; dimension := image_dimension img |}) /\
    (size distBlob <= size file ->
     dist o = {| blob := distBlob; dimension := canvas_dimension result |}).
Proof.
  intros H. apply process_resolved in H.
  destruct H as (img & result & distBlob & L & D & B & ->).
  exists img, result, distBlob. simpl. unfold sizeGuard.
  repeat (split; [assumption || reflexivity |]).
  split; intros Hs.
  - apply Z.ltb_lt in Hs. now rewrite Hs.
  - apply Z.ltb_ge in Hs. now rewrite Hs.
Qed.

Lemma size_guard_choice_witness :
  exists (img : Image) (result : Canvas) (distBlob : Blob),
    loadImage (demo_host 800 600) (png_file 3) = Some img /\
    drawImage (demo_host 800 600) (with_outputType fresh "image/png")
      (getOriginInfo (demo_host 800 600) (with_outputType fresh "image/png") img)
      (scaleFor (demo_host 800 600) (config (with_outputType fresh "image/png"))
         (getOriginInfo (demo_host 800 600) (with_outputType fresh "image/png") img))
    = Returned result /\
    dataURLToBlob (demo_host 800 600) (with_outputType fresh "image/png")
      (toDataURL (demo_host 800 600) result
         (outputType (with_outputType fresh "image/png"))
         (quality (config (with_outputType fresh "image/png"))))
    = Some distBlob /\
    {| blob := png_file 3; dimension := {| width := 800; height := 600 |} |}
    = {| blob := png_file 3; dimension := image_dimension img |} /\
    (size (png_file 3) < size distBlob ->
     {| blob := png_file 3; dimension := {| width := 800; height := 600 |} |}
     = {| blob := png_file 3; dimension := image_dimension img |}) /\
    (size distBlob <= size (png_file 3) ->
     {| blob := png_file 3; dimension := {| width := 800; height := 600 |} |}
     = {| blob := distBlob; dimension := canvas_dimension result |}).
Proof.
  apply (size_guard_choice (demo_host 800 600) fresh
           (with_outputType fresh "image/png") (png_file 3)
           [Load (png_file 3); ToDataURL (Some "image/png"%string) (92 # 100)]
           {| dist := {| blob := png_file 3;
                         dimension := {| width := 800; height := 600 |} |};
              source := {| blob := png_file 3;
                           dimension := {| width := 800; height := 600 |} |} |}).
  vm_compute. reflexivity.
Defined.

(** C3. The scale [process] computes is never above 1.  When the bounds of
    the configuration are positive and the canvas fits within both, the
    scale is 1 and [drawImage] hands back the canvas it was given, with no
    call made on it. *)
Theorem fitting_image_passes_through (host : Host) (this : Compress)
        (cfg : Config) (canvas : Canvas) :
  Num.ltb (of_Z 1) (scaleFor host cfg canvas) = false /\
  (sound_rounding (rnd host) ->
   0 < maxWidth cfg -> 0 < maxHeight cfg ->
   0 <= canvas_width canvas <= maxWidth cfg ->
   0 <= canvas_height canvas <= maxHeight cfg ->
   scaleFor host cfg canvas = of_Z 1 /\
   drawImage host this canvas (scaleFor host cfg canvas) = Returned canvas).
Proof.
  split.
  - unfold scaleFor, min3.
    destruct (Num.ltb (of_Z 1) (min2 (min2 (of_Z 1) _) _)) eqn:E; [| reflexivity].
    apply ltb_min2 in E. destruct E as [E _].
    apply ltb_min2 in E. destruct E as [E _].
    rewrite ltb_irrefl in E. discriminate.
  - intros sound Hw Hh Hcw Hch.
    assert (scaleFor host cfg canvas = of_Z 1) as E.
    { unfold scaleFor, min3.
      rewrite (min2_one _ (ratio_fits host sound _ _ Hw Hcw)).
      apply (min2_one _ (ratio_fits host sound _ _ Hh Hch)). }
    split; [exact E |].
    rewrite E. unfold drawImage. rewrite of_Z_eqb. reflexivity.
Qed.

Lemma fitting_image_passes_through_witness :
  scaleFor (demo_host 800 600) (config fresh) (blank 800 600) = of_Z 1 /\
  drawImage (demo_host 800 600) fresh (blank 800 600)
            (scaleFor (demo_host 800 600) (config fresh) (blank 800 600))
  = Returned (blank 800 600).
Proof.
  apply (fitting_image_passes_through (demo_host 800 600) fresh (config fresh)
           (blank 800 600)).
  - exact round64_sound.
  - reflexivity.
  - reflexivity.
  - simpl. lia.
  - simpl. lia.
Defined.

(** C4. A file whose type does not begin with [image] is rejected at the
    first gate with the unsupported-type error: nothing is logged, no
    image is loaded, no outcome is produced. *)
Theorem unsupported_type_rejected (host : Host) (this : Compress) (file : Blob) :
  matches_image (blob_type file) = false ->
  process host this file
  = (with_outputType this (blob_type file), [],
     Rejected (Error ("unsupport file type: " ++ blob_type file))).
Proof.
  intros H. unfold process, gates. rewrite H. reflexivity.
Qed.

Lemma unsupported_type_rejected_witness :
  process (demo_host 800 600) fresh (text_file 10)
  = (with_outputType fresh "text/plain", [],
     Rejected (Error "unsupport file type: text/plain")).
Proof.
  apply (unsupported_type_rejected (demo_host 800 600)
           fresh (text_file 10)).
  reflexivity.
Defined.





(** C7, as the code has it. When [process] resolves and the re-encoded
    blob is strictly larger than the file, [dist] is [source], blob and
    dimensions; a re-encoded blob of the same size as the file, or
    smaller, is the one handed back. *)
Theorem larger_candidate_rejected (host : Host) (this this' : Compress) (file : Blob)
        (ev : list event) (o : Outcome) :
  process host this file = (this', ev, Resolved o) ->
  exists (result : Canvas) (distBlob : Blob),
    dataURLToBlob host this'
      (toDataURL host result (outputType this') (quality (config this')))
    = Some distBlob /\
    (size file < size distBlob -> dist o = source o) /\
    (size distBlob <= size file ->
     blob (dist o) = distBlob /\ dimension (dist o) = canvas_dimension result).
Proof.
  intros H. apply process_resolved in H.
  destruct H as (img & result & distBlob & L & D & B & ->).
  exists result, distBlob. split; [exact B |]. simpl. unfold sizeGuard.
  split; intros Hs.
  - apply Z.ltb_lt in Hs. now rewrite Hs.
  - apply Z.ltb_ge in Hs. rewrite Hs. split; reflexivity.
Qed.

Lemma larger_candidate_rejected_witness :
  exists (result : Canvas) (distBlob : Blob),
    dataURLToBlob (demo_host 800 600) (with_outputType fresh "image/png")
      (toDataURL (demo_host 800 600) result
         (outputType (with_outputType fresh "image/png"))
         (quality (config (with_outputType fresh "image/png"))))
    = Some distBlob /\
    (size (png_file 3) < size distBlob ->
     {| blob := png_file 3; dimension := {| width := 800; height := 600 |} |}
     = {| blob := png_file 3; dimension := {| width := 800; height := 600 |} |}) /\
    (size distBlob <= size (png_file 3) ->
     png_file 3 = distBlob /\
     {| width := 800; height := 600 |} = canvas_dimension result).
Proof.
  apply (larger_candidate_rejected (demo_host 800 600) fresh
           (with_outputType fresh "image/png") (png_file 3)
           [Load (png_file 3); ToDataURL (Some "image/png"%string) (92 # 100)]
           {| dist := {| blob := png_file 3;
                         dimension := {| width := 800; height := 600 |} |};
              source := {| blob := png_file 3;
                           dimension := {| width := 800; height := 600 |} |} |}).
  vm_compute. reflexivity.
Defined.

(** C7, as the spec states it, fails at equal sizes: the file has six
    bytes, the re-encoded blob has six other bytes, and [dist] is the
    re-encoded blob, not the file. *)
Lemma equal_size_candidate_kept :
  snd (process (demo_host 800 600) fresh (png_file 6))
  = Resolved
      {| dist := {| blob := {| blob_type := "image/png"; blob_data := png_signature |};
                    dimension := {| width := 800; height := 600 |} |};
         source := {| blob := png_file 6;
                      dimension := {| width := 800; height := 600 |} |} |} /\
  size {| blob_type := "image/png"; blob_data := png_signature |} = size (png_file 6) /\
  {| blob := {| blob_type := "image/png"; blob_data := png_signature |};
     dimension := {| width := 800; height := 600 |} |}
  <> {| blob := png_file 6; dimension := {| width := 800; height := 600 |} |}.
Proof.
  split; [vm_compute; reflexivity |]. split; [reflexivity |].
  intros H. discriminate H.
Qed.




(** C9, as the code has it.  A call of [process] leaves [config] as it was
    and writes [outputType]: the type of the file, or the default type when
    that type is an unsupported image type.  It writes it before any stage
    reads it, so a call that runs with no other call in between does not
    depend on the [outputType] it finds. *)
Theorem process_writes_outputType (host : Host) (this : Compress) (file : Blob) :
  config (instance_after (process host this file)) = config this /\
  outputType (instance_after (process host this file))
  = Some (if matches_image (blob_type file) && negb (isSupportedType (blob_type file))
          then DEFAULT_TYPE else blob_type file) /\
  forall t : option string,
    process host {| config := config this; outputType := t |} file
    = process host this file.
Proof.
  split; [| split].
  - unfold process, gates, instance_after.
    destruct (matches_image (blob_type file)); simpl;
      [destruct (isSupportedType (blob_type file)); simpl |];
      try reflexivity;
      match goal with |- context [chain ?h ?i ?f] => destruct (chain h i f) end;
      reflexivity.
  - unfold process, gates, instance_after.
    destruct (matches_image (blob_type file)); simpl;
      [destruct (isSupportedType (blob_type file)); simpl |];
      try reflexivity;
      match goal with |- context [chain ?h ?i ?f] => destruct (chain h i f) end;
      reflexivity.
  - intros t. unfold process. rewrite gates_overwrite. reflexivity.
Qed.

(** C9, as the spec states it, fails: [process] writes [outputType], which
    the constructor left undefined; and a second call that passes the gates
    while the first waits for its image changes what the first then reads:
    the first file, a PNG, is encoded as JPEG. *)
Lemma process_writes_instance_field :
  outputType fresh = None /\
  outputType (instance_after (process (demo_host 800 600) fresh (png_file 10)))
  = Some "image/png"%string /\
  instance_after (process (demo_host 800 600) fresh (png_file 10)) <> fresh /\
  fst (chain (demo_host 800 600)
         (fst (fst (gates fresh (png_file 10)))) (png_file 10))
  = [Load (png_file 10); ToDataURL (Some "image/png"%string) (92 # 100)] /\
  fst (chain (demo_host 800 600)
         (fst (fst (gates (fst (fst (gates fresh (png_file 10)))) (gif_file 10))))
         (png_file 10))
  = [Load (png_file 10); ToDataURL (Some "image/jpeg"%string) (92 # 100)].
Proof.
  split; [reflexivity |]. split; [reflexivity |].
  split; [intros H; discriminate H |].
  split; vm_compute; reflexivity.
Qed.




(* ================================================================== *)
(** ** Further properties: the gates *)
(* ================================================================== *)

(** The supported types are the three of [MIME_TYPES]. *)
Lemma isSupportedType_iff (type : string) :
  isSupportedType type = true <->
  type = "image/png"%string \/ type = "image/jpeg"%string \/ type = "image/webp"%string.
Proof.
  unfold isSupportedType, SUPPORT_MIME_TYPES, MIME_TYPES. simpl.
  rewrite !orb_true_iff, !String.eqb_eq. intuition discriminate.
Qed.

(** A supported type begins with [image]. *)
Lemma supported_matches_image (type : string) :
  isSupportedType type = true -> matches_image type = true.
Proof.
  intros H. apply isSupportedType_iff in H.
  destruct H as [-> | [-> | ->]]; reflexivity.
Qed.

(** X1. A file goes through the gates with nothing logged exactly when its
    type is one of [image/png], [image/jpeg] and [image/webp]; its type is
    then the output type. *)
Theorem gates_silent_iff_supported (this : Compress) (file : Blob) :
  gates this file = (with_outputType this (blob_type file), [], None) <->
  blob_type file = "image/png"%string \/ blob_type file = "image/jpeg"%string \/
  blob_type file = "image/webp"%string.
Proof.
  rewrite <- isSupportedType_iff. unfold gates. split.
  - destruct (matches_image (blob_type file)); simpl; [| discriminate].
    destruct (isSupportedType (blob_type file)); simpl; [reflexivity | discriminate].
  - intros H. rewrite (supported_matches_image _ H), H. reflexivity.
Qed.

Lemma gates_silent_iff_supported_witness :
  gates fresh (png_file 10) = (with_outputType fresh "image/png", [], None).
Proof.
  apply (proj2 (gates_silent_iff_supported fresh (png_file 10))).
  left. reflexivity.
Defined.

(** X2. For a file whose type begins with [image], the instance the gates
    leave makes [clear] fill the rectangle white, unless the type is
    [image/png] or [image/webp], for which it clears the rectangle: white is
    used exactly when the output is JPEG. *)
Theorem clear_after_gates (this : Compress) (file : Blob) (ctx : Canvas) (w h : Z) :
  matches_image (blob_type file) = true ->
  clear (fst (fst (gates this file))) ctx w h
  = draw ctx (if String.eqb (blob_type file) "image/png"
                 || String.eqb (blob_type file) "image/webp"
              then ClearRect w h else FillWhite w h).
Proof.
  intros Hm. unfold gates. rewrite Hm. cbn [negb].
  destruct (isSupportedType (blob_type file)) eqn:Hs; cbn [negb fst].
  - apply isSupportedType_iff in Hs. destruct Hs as [-> | [-> | ->]]; reflexivity.
  - assert (String.eqb (blob_type file) "image/png" = false) as ->.
    { apply String.eqb_neq. intros E.
      assert (isSupportedType (blob_type file) = true) as C
          by (apply isSupportedType_iff; auto).
      congruence. }
    assert (String.eqb (blob_type file) "image/webp" = false) as ->.
    { apply String.eqb_neq. intros E.
      assert (isSupportedType (blob_type file) = true) as C
          by (apply isSupportedType_iff; auto).
      congruence. }
    reflexivity.
Qed.

Lemma clear_after_gates_witness :
  clear (fst (fst (gates fresh (gif_file 10)))) (blank 2 2) 2 2
  = draw (blank 2 2) (FillWhite 2 2).
Proof.
  apply (clear_after_gates fresh (gif_file 10) (blank 2 2) 2 2).
  reflexivity.
Defined.

(* ================================================================== *)
(** ** Further properties: [getOriginInfo] and [dataURLToBlob] *)
(* ================================================================== *)

(** X3. When the image has no EXIF orientation, or one that is 0, the canvas
    of [getOriginInfo] has the size [getTransform] gives for orientation 1,
    and holds three calls in this order: the clearing of the whole canvas,
    the transform, and the drawing of the image. *)
Theorem getOriginInfo_untagged (host : Host) (this : Compress) (img : Image) :
  exifOrientation host img = None \/ exifOrientation host img = Some 0 ->
  exists fill : draw_call,
    (fill = FillWhite (t_width (getTransform host img 1))
                      (t_height (getTransform host img 1)) \/
     fill = ClearRect (t_width (getTransform host img 1))
                      (t_height (getTransform host img 1))) /\
    getOriginInfo host this img
    = mkCanvas (t_width (getTransform host img 1))
               (t_height (getTransform host img 1))
               [fill; ApplyTransform (t_matrix (getTransform host img 1)); DrawImg img].
Proof.
  intros H. unfold getOriginInfo.
  assert (match exifOrientation host img with
          | Some 0 | None => 1
          | Some tag => tag
          end = 1) as -> by (destruct H as [-> | ->]; reflexivity).
  unfold clear.
  destruct (outputType this) as [t |]; [destruct (String.eqb t DEFAULT_TYPE) |];
    eexists; (split; [| reflexivity]); auto.
Qed.

Lemma getOriginInfo_untagged_witness :
  exists fill : draw_call,
    (fill = FillWhite 800 600 \/ fill = ClearRect 800 600) /\
    getOriginInfo (demo_host 800 600) fresh
      {| img_width := 800; img_height := 600; img_src := png_file 10 |}
    = mkCanvas 800 600
        [fill; ApplyTransform [1; 0; 0; 1; 0; 0]%Q;
         DrawImg {| img_width := 800; img_height := 600; img_src := png_file 10 |}].
Proof.
  apply (getOriginInfo_untagged (demo_host 800 600) fresh
           {| img_width := 800; img_height := 600; img_src := png_file 10 |}).
  left. reflexivity.
Defined.

(** A string with no comma is one piece. *)
Lemma split_comma_free (s : string) :
  comma_free s = true -> split "," s = [s].
Proof.
  induction s as [| c s IH]; [reflexivity |].
  unfold comma_free. cbn [list_ascii_of_string forallb split].
  intros H. apply andb_true_iff in H. destruct H as [Hc Hs].
  apply negb_true_iff in Hc. rewrite Hc.
  unfold comma_free in IH. rewrite (IH Hs). reflexivity.
Qed.

(** The first piece is what comes before the first comma. *)
Lemma split_first_comma (header rest : string) :
  comma_free header = true ->
  split "," (header ++ "," ++ rest) = header :: split "," rest.
Proof.
  induction header as [| c s IH].
  - intros _. reflexivity.
  - unfold comma_free. cbn [list_ascii_of_string forallb].
    intros H. apply andb_true_iff in H. destruct H as [Hc Hs].
    apply negb_true_iff in Hc.
    change ((String c s ++ "," ++ rest)%string) with (String c (s ++ "," ++ rest)).
    cbn [split]. rewrite Hc. unfold comma_free in IH. rewrite (IH Hs). reflexivity.
Qed.

(** X4. Of a data URL made of a header, a comma and a payload, neither with
    a comma in it, [dataURLToBlob] decodes the payload: the blob holds the
    character codes of what [atob] gives, one byte each, under the output
    type of the instance, whatever type the header names; there is no blob
    when [atob] throws. *)
Theorem dataURLToBlob_payload (host : Host) (this : Compress) (header payload : string) :
  comma_free header = true -> comma_free payload = true ->
  dataURLToBlob host this (header ++ "," ++ payload)
  = option_map (blob_of this) (atob host payload) /\
  forall blob : Blob,
    dataURLToBlob host this (header ++ "," ++ payload) = Some blob ->
    exists binary : string,
      atob host payload = Some binary /\
      size blob = Z.of_nat (String.length binary).
Proof.
  intros Hh Hp.
  assert (dataURLToBlob host this (header ++ "," ++ payload)
          = option_map (blob_of this) (atob host payload)) as E.
  { unfold dataURLToBlob. rewrite (split_first_comma header payload Hh).
    rewrite (split_comma_free payload Hp). cbn [nth].
    destruct (atob host payload); reflexivity. }
  split; [exact E |].
  intros blob. rewrite E. destruct (atob host payload) as [binary |]; [| discriminate].
  intros [= <-]. exists binary. split; [reflexivity |].
  unfold size, blob_of, charCodes; cbn [blob_data].
  rewrite length_map. f_equal.
  clear. induction binary as [| c s IH]; [reflexivity |]. simpl. now rewrite IH.
Qed.

Lemma dataURLToBlob_payload_witness :
  dataURLToBlob (demo_host 800 600) (with_outputType fresh "image/webp")
    ("data:image/png;base64" ++ "," ++ "iVBORw0K")
  = option_map (blob_of (with_outputType fresh "image/webp"))
      (atob (demo_host 800 600) "iVBORw0K") /\
  forall blob : Blob,
    dataURLToBlob (demo_host 800 600) (with_outputType fresh "image/webp")
      ("data:image/png;base64" ++ "," ++ "iVBORw0K") = Some blob ->
    exists binary : string,
      atob (demo_host 800 600) "iVBORw0K" = Some binary /\
      size blob = Z.of_nat (String.length binary).
Proof.
  apply (dataURLToBlob_payload (demo_host 800 600) (with_outputType fresh "image/webp")
           "data:image/png;base64" "iVBORw0K"); reflexivity.
Defined.

(** X5. Of a data URL with no comma in it, [dataURLToBlob] hands the string
    [undefined] to [atob]. *)
Theorem dataURLToBlob_no_payload (host : Host) (this : Compress) (dataURL : string) :
  comma_free dataURL = true ->
  dataURLToBlob host this dataURL = option_map (blob_of this) (atob host "undefined").
Proof.
  intros H. unfold dataURLToBlob. rewrite (split_comma_free dataURL H). cbn [nth].
  destruct (atob host "undefined"); reflexivity.
Qed.

Lemma dataURLToBlob_no_payload_witness :
  dataURLToBlob (demo_host 800 600) fresh "data:" = None.
Proof.
  rewrite (dataURLToBlob_no_payload (demo_host 800 600) fresh "data:"); reflexivity.
Defined.

(* ================================================================== *)
(** ** Further properties: the loop of [drawImage] *)
(* ================================================================== *)







Section Unusable.

Variable host : Host.
Hypothesis sound : sound_rounding (rnd host).

(** The quotient of what is not positive by [Math.log(2)] is not positive. *)
Lemma div_SCALE_FACTOR_nonpos (x : num) :
  x = NaN \/ at_most 0 x ->
  num_div host x SCALE_FACTOR = NaN \/ at_most 0 (num_div host x SCALE_FACTOR).
Proof.
  intros [-> | [-> | (a & -> & Ha)]].
  - left. reflexivity.
  - right. left. reflexivity.
  - right. unfold num_div, Num.div, SCALE_FACTOR.
    rewrite Qis_zero_false by (intros E; discriminate E).
    apply (rnd_upper (rnd host) sound).
    + apply (binary64_Z 0). reflexivity.
    + apply Qle_shift_div_r; [reflexivity |]. lra.
Qed.

(** The reciprocal of an unusable scale is not positive. *)
Lemma reciprocal_unusable (scale : num) :
  unusable scale ->
  num_div host (of_Z 1) scale = NaN \/ at_most 0 (num_div host (of_Z 1) scale).
Proof.
  intros [-> | [-> | [-> | (s & -> & Hs)]]].
  - left. reflexivity.
  - right. right. exists 0%Q. split; [reflexivity | lra].
  - right. right. exists 0%Q. split; [reflexivity | lra].
  - right. unfold num_div, Num.div, of_Z.
    rewrite Qis_zero_false by lra.
    apply (rnd_upper (rnd host) sound).
    + apply (binary64_Z 0). reflexivity.
    + assert (0 < / (- s))%Q as Hi by (apply Qinv_lt_0_compat; lra).
      assert (inject_Z 1 / s == - / (- s))%Q as -> by (unfold inject_Z; field; lra).
      unfold inject_Z. lra.
Qed.

(** The step count of an unusable scale is NaN, minus infinity, or an
    integer that is not positive. *)
Lemma stepsFor_unusable (scale : num) :
  unusable scale ->
  stepsFor host scale = NaN \/ stepsFor host scale = NInf \/
  exists z, stepsFor host scale = of_Z z /\ z <= 0.
Proof.
  intros H. unfold stepsFor.
  destruct (div_SCALE_FACTOR_nonpos _ (reciprocal_unusable scale H))
    as [-> | [-> | (q & -> & Hq)]].
  - left. reflexivity.
  - right. left. reflexivity.
  - right. right. exists (Qceiling q). split.
    + unfold ceil, MAX_STEPS, min2. change (of_Z (Qceiling q)) with (Fin (inject_Z (Qceiling q))) at 1.
      cbv iota beta. change (Fin (inject_Z (Qceiling q))) with (of_Z (Qceiling q)).
      rewrite of_Z_ltb.
      assert (Qceiling q <= 0) as Hc.
      { change 0 with (Qceiling 0). apply Qceiling_resp_le. exact Hq. }
      destruct (Z.ltb_spec (Qceiling q) 4); [reflexivity | lia].
    + change 0 with (Qceiling 0). apply Qceiling_resp_le. exact Hq.
Qed.

End Unusable.

(** No number below 1 that is NaN or infinite is [=== 1]. *)
Lemma unusable_not_one (scale : num) : unusable scale -> Num.eqb scale (of_Z 1) = false.
Proof.
  intros [-> | [-> | [-> | (s & -> & Hs)]]]; try reflexivity.
  apply Fin_eqb_one. lra.
Qed.

(** For an unusable scale the loop is not entered. *)
Lemma drawImage_unusable (host : Host) (this : Compress) (source : Canvas) (scale : num) :
  sound_rounding (rnd host) -> unusable scale ->
  drawImage host this source scale = Undefined.
Proof.
  intros sound H. unfold drawImage. rewrite (unusable_not_one scale H).
  unfold loop_fuel. cbn [while].
  destruct (stepsFor_unusable host sound scale H) as [-> | [-> | (z & -> & Hz)]];
    try reflexivity.
  rewrite of_Z_ltb. unfold enter; cbn [l_i].
  destruct (Z.ltb_spec 0 z); [lia | reflexivity].
Qed.

(** X8. For a scale that is NaN, infinite or below 0, [drawImage] draws
    nothing and returns [undefined]: the step count is not above 0 and the
    loop is not entered. *)
Theorem drawImage_undefined (host : Host) (this : Compress) (source : Canvas)
        (scale : num) :
  sound_rounding (rnd host) ->
  unusable scale ->
  drawImage host this source scale = Undefined /\
  step_dimensions host this source scale = [].
Proof.
  intros sound H. unfold drawImage, step_dimensions.
  rewrite (unusable_not_one scale H).
  assert (Num.ltb (of_Z (l_i (enter source))) (stepsFor host scale) = false) as E.
  { destruct (stepsFor_unusable host sound scale H) as [-> | [-> | (z & -> & Hz)]];
      try reflexivity.
    rewrite of_Z_ltb. apply Z.ltb_ge. unfold enter; cbn [l_i]. exact Hz. }
  unfold loop_fuel. cbn [while passes]. rewrite E. split; reflexivity.
Qed.

Lemma drawImage_undefined_witness :
  drawImage (demo_host 800 600) fresh (blank 800 600) (Fin (- (1 # 2))) = Undefined /\
  step_dimensions (demo_host 800 600) fresh (blank 800 600) (Fin (- (1 # 2))) = [].
Proof.
  apply (drawImage_undefined (demo_host 800 600) fresh (blank 800 600) (Fin (- (1 # 2)))).
  - exact round64_sound.
  - right. right. right. exists (- (1 # 2))%Q. split; [reflexivity | reflexivity].
Defined.

(* ================================================================== *)
(** ** Further properties: how [process] ends *)
(* ================================================================== *)

(** [Math.min] is negative as soon as one argument is. *)
Lemma min2_negative (a b : num) : negative a \/ negative b -> negative (min2 a b).
Proof.
  unfold negative.
  intros [[-> | [-> | (x & -> & Hx)]] | [-> | [-> | (y & -> & Hy)]]];
    destruct a as [| | |x'] || destruct b as [| | |y']; simpl; auto;
    repeat match goal with
           | |- context [Qlt_le_dec ?p ?q] => destruct (Qlt_le_dec p q); simpl
           end;
    auto; right; right; eexists; (split; [reflexivity | lra]).
Qed.

Lemma negative_unusable (a : num) : negative a -> unusable a.
Proof.
  unfold negative, unusable. intros [-> | [-> | (q & -> & Hq)]]; eauto 6.
Qed.

(** A negative bound over a positive size gives a negative ratio. *)
Lemma ratio_negative (host : Host) (m w : Z) :
  sound_rounding (rnd host) -> m < 0 -> 0 < w < 2 ^ 31 ->
  negative (num_div host (of_Z m) (of_Z w)).
Proof.
  intros sound Hm Hw. unfold num_div, Num.div, of_Z.
  pose proof (inject_Z_lt0 w (proj1 Hw)) as Hwq.
  rewrite Qis_zero_false by lra.
  assert (inject_Z m <= - 1)%Q as Hmq.
  { change (- 1)%Q with (inject_Z (- 1)). rewrite <- Zle_Qle. lia. }
  assert (inject_Z w <= inject_Z (2 ^ 31))%Q as Hw31.
  { rewrite <- Zle_Qle. lia. }
  destruct (rnd_upper (rnd host) sound (- (1 # 2147483648)) (inject_Z m / inject_Z w))
    as [E | (q & E & Hq)].
  - exists (- 1), (- 31). split; [reflexivity |]. split; [lia | reflexivity].
  - apply Qle_shift_div_r; [assumption |].
    change (inject_Z (2 ^ 31)) with (2147483648 # 1)%Q in Hw31. nra.
  - right. left. exact E.
  - right. right. exists q. split; [exact E | lra].
Qed.

(** The instance [process] hands back is the one the gates leave. *)
Lemma process_instance (host : Host) (this : Compress) (file : Blob) :
  instance_after (process host this file) = fst (fst (gates this file)).
Proof.
  unfold process, instance_after.
  destruct (gates this file) as [[this1 ev] [e |]]; [reflexivity |].
  destruct (chain host this1 file). reflexivity.
Qed.

(** The gates leave the configuration as it is. *)
Lemma gates_config (this : Compress) (file : Blob) :
  config (fst (fst (gates this file))) = config this.
Proof.
  unfold gates. destruct (negb (matches_image (blob_type file))); [reflexivity |].
  destruct (negb (isSupportedType (blob_type file))); reflexivity.
Qed.

(** What the gates leave as output type. *)
Lemma gates_outputType (this : Compress) (file : Blob) :
  matches_image (blob_type file) = true ->
  outputType (fst (fst (gates this file)))
  = Some (if isSupportedType (blob_type file) then blob_type file else DEFAULT_TYPE).
Proof.
  intros H. unfold gates. rewrite H. cbn [negb].
  destruct (isSupportedType (blob_type file)); reflexivity.
Qed.

(** A file whose type begins with [image] gets past the gates. *)
Lemma gates_pass (this : Compress) (file : Blob) :
  matches_image (blob_type file) = true -> snd (gates this file) = None.
Proof.
  intros H. unfold gates. rewrite H. cbn [negb].
  destruct (isSupportedType (blob_type file)); reflexivity.
Qed.

(** Past the gates, [process] ends as the chain does. *)
Lemma process_chain (host : Host) (this : Compress) (file : Blob) :
  matches_image (blob_type file) = true ->
  snd (process host this file) = snd (chain host (fst (fst (gates this file))) file).
Proof.
  intros H. pose proof (gates_pass this file H) as G. unfold process.
  destruct (gates this file) as [[this1 ev] r]. cbn [snd fst] in *. subst r.
  destruct (chain host this1 file). reflexivity.
Qed.

(** X9. A negative bound in the configuration makes [process] reject with a
    [TypeError] once the image has loaded: the scale is negative,
    [drawImage] returns [undefined], and [toDataURL] is called on it. *)
Theorem negative_bound_rejects (host : Host) (this : Compress) (file : Blob) (img : Image) :
  sound_rounding (rnd host) ->
  matches_image (blob_type file) = true ->
  loadImage host file = Some img ->
  sized host img ->
  maxWidth (config this) < 0 \/ maxHeight (config this) < 0 ->
  snd (process host this file) = Rejected TypeError.
Proof.
  intros sound Hm L Hsz Hneg. rewrite (process_chain host this file Hm).
  set (this1 := fst (fst (gates this file))).
  pose proof (gates_config this file) as Hc. fold this1 in Hc.
  unfold chain. rewrite L.
  destruct (getOriginInfo_size host this1 img) as (tag & Hcw & Hch).
  destruct (Hsz tag) as [Htw Hth].
  assert (unusable (scaleFor host (config this1) (getOriginInfo host this1 img))) as Hu.
  { apply negative_unusable. unfold scaleFor, min3. rewrite Hc, Hcw, Hch.
    destruct Hneg as [Hw | Hh].
    - apply min2_negative. left. apply min2_negative. right.
      apply ratio_negative; assumption.
    - apply min2_negative. right. apply ratio_negative; assumption. }
  rewrite (drawImage_unusable host this1 (getOriginInfo host this1 img) _ sound Hu).
  reflexivity.
Qed.

Lemma negative_bound_rejects_witness :
  snd (process (demo_host 800 600) (bounded (-1) 1600) (png_file 10)) = Rejected TypeError.
Proof.
  apply (negative_bound_rejects (demo_host 800 600) (bounded (-1) 1600) (png_file 10)
           {| img_width := 800; img_height := 600; img_src := png_file 10 |}).
  - exact round64_sound.
  - reflexivity.
  - reflexivity.
  - intros tag. simpl. lia.
  - left. simpl. lia.
Defined.

Section Narrow.

Variable host : Host.
Hypothesis sound : sound_rounding (rnd host).
Variable this : Compress.
Variable steps : num.

(** A width or height of 0 stays 0, whatever the factor. *)
Lemma zero_stays (factor : num) : to_int32 (num_mul host (of_Z 0) factor) = 0.
Proof.
  unfold num_mul, Num.mul, of_Z. destruct factor as [| | | f]; try reflexivity.
  assert (binary64 (inject_Z 0 * f)) as Hb.
  { exists 0, 0. split; [reflexivity |]. split; [lia |]. unfold inject_Z. ring. }
  destruct (eqb_Fin_inv _ _ (rnd_exact (rnd host) sound _ Hb)) as (q & -> & Eq).
  assert (q == 0)%Q as E0 by (rewrite Eq; unfold inject_Z; ring).
  unfold to_int32. rewrite (Qtrunc_nonneg q) by lra.
  rewrite (Qfloor_comp q 0 E0). reflexivity.
Qed.

(** Once the width is 0, every pair the loop computes has width 0; the same
    for the height. *)
Lemma passes_zero_width (factor : num) :
  forall (fuel : nat) (st : Loop),
    l_width st = 0 ->
    Forall (fun d : Dimension => width d = 0) (passes host fuel this steps factor st).
Proof.
  induction fuel as [| fuel IH]; intros st Hw; [constructor |].
  cbn [passes]. destruct (Num.ltb (of_Z (l_i st)) steps); [| constructor].
  assert (width (scaled host factor st) = 0) as E.
  { unfold scaled; cbn [width]. rewrite Hw. apply zero_stays. }
  constructor; [exact E |].
  destruct (body host this steps factor st) as [st' | c | e] eqn:Hb; try constructor.
  apply IH. destruct (body_next host this steps factor st st' Hb) as (_ & -> & _).
  exact E.
Qed.

Lemma passes_zero_height (factor : num) :
  forall (fuel : nat) (st : Loop),
    l_height st = 0 ->
    Forall (fun d : Dimension => height d = 0) (passes host fuel this steps factor st).
Proof.
  induction fuel as [| fuel IH]; intros st Hh; [constructor |].
  cbn [passes]. destruct (Num.ltb (of_Z (l_i st)) steps); [| constructor].
  assert (height (scaled host factor st) = 0) as E.
  { unfold scaled; cbn [height]. rewrite Hh. apply zero_stays. }
  constructor; [exact E |].
  destruct (body host this steps factor st) as [st' | c | e] eqn:Hb; try constructor.
  apply IH. destruct (body_next host this steps factor st st' Hb) as (_ & _ & ->).
  exact E.
Qed.

(** When the loop returns a canvas, no pair it computed has a 0 in it. *)
Lemma while_nonzero (factor : num) (canvas : Canvas) :
  forall (fuel : nat) (st : Loop),
    while host fuel this steps factor st = Returned canvas ->
    Forall (fun d : Dimension => width d <> 0 /\ height d <> 0)
           (passes host fuel this steps factor st).
Proof.
  induction fuel as [| fuel IH]; intros st; [discriminate |].
  cbn [while passes]. destruct (Num.ltb (of_Z (l_i st)) steps); [| discriminate].
  destruct (body host this steps factor st) as [st' | c | e] eqn:Hb.
  - intros H. constructor; [| apply IH; exact H].
    destruct (body_next host this steps factor st st' Hb) as (_ & Ew & Eh).
    destruct (while_in_passes host this steps factor canvas fuel st' H)
      as (Hin & Hnw & Hnh).
    split; intros E0.
    + rewrite E0 in Ew. pose proof (passes_zero_width factor fuel st' Ew) as Hz.
      rewrite Forall_forall in Hz. apply Hz in Hin. simpl in Hin. contradiction.
    + rewrite E0 in Eh. pose proof (passes_zero_height factor fuel st' Eh) as Hz.
      rewrite Forall_forall in Hz. apply Hz in Hin. simpl in Hin. contradiction.
  - intros H. injection H as ->. constructor; [| constructor].
    apply (body_return host this steps factor st canvas Hb).
  - discriminate.
Qed.

Variable f : Q.
Hypothesis binary_factor : binary64 f.
Hypothesis small_factor : (0 <= f < 1)%Q.

(** From a width of 1, or of 0, every pair the loop computes has width 0;
    the same for the height. *)
Lemma passes_narrow_width :
  forall (fuel : nat) (st : Loop),
    l_width st = 1 ->
    Forall (fun d : Dimension => width d = 0) (passes host fuel this steps (Fin f) st).
Proof.
  intros [| fuel] st Hw; [constructor |].
  cbn [passes]. destruct (Num.ltb (of_Z (l_i st)) steps); [| constructor].
  assert (width (scaled host (Fin f) st) = 0) as E.
  { unfold scaled; cbn [width]. rewrite Hw.
    apply one_pixel_vanishes; assumption. }
  constructor; [exact E |].
  destruct (body host this steps (Fin f) st) as [st' | c | e] eqn:Hb; try constructor.
  apply passes_zero_width.
  destruct (body_next host this steps (Fin f) st st' Hb) as (_ & -> & _). exact E.
Qed.

Lemma passes_narrow_height :
  forall (fuel : nat) (st : Loop),
    l_height st = 1 ->
    Forall (fun d : Dimension => height d = 0) (passes host fuel this steps (Fin f) st).
Proof.
  intros [| fuel] st Hh; [constructor |].
  cbn [passes]. destruct (Num.ltb (of_Z (l_i st)) steps); [| constructor].
  assert (height (scaled host (Fin f) st) = 0) as E.
  { unfold scaled; cbn [height]. rewrite Hh.
    apply one_pixel_vanishes; assumption. }
  constructor; [exact E |].
  destruct (body host this steps (Fin f) st) as [st' | c | e] eqn:Hb; try constructor.
  apply passes_zero_height.
  destruct (body_next host this steps (Fin f) st st' Hb) as (_ & _ & ->). exact E.
Qed.

End Narrow.

(** X10. A source canvas one pixel wide, or one pixel high, cannot be
    scaled down: with a factor that is a binary64 value below 1, the first
    pass takes that side to 0, it stays 0, and in the final-step branch
    [getImageData] throws its [IndexSizeError]. *)
Theorem one_pixel_side_throws (host : Host) (this : Compress) (source : Canvas)
        (scale : num) (n : Z) (f : Q) :
  sound_rounding (rnd host) ->
  Num.eqb scale (of_Z 1) = false ->
  stepsFor host scale = of_Z n ->
  1 <= n <= 4 ->
  factorFor host scale = Fin f ->
  binary64 f -> (0 <= f < 1)%Q ->
  (canvas_width source = 1 /\ canvas_height source <> 0) \/
  (canvas_height source = 1 /\ canvas_width source <> 0) ->
  drawImage host this source scale = Thrown IndexSizeError.
Proof.
  intros sound H1 En Hn Ef Hb Hf Hside.
  assert (canvas_width source <> 0 /\ canvas_height source <> 0) as [Hw Hh].
  { destruct Hside as [[E H] | [E H]]; rewrite E; split; auto; lia. }
  destruct (drawImage_run host this source scale n H1 En Hn Hw Hh)
    as (last & Hl & Hlen & Hlast & Hend).
  assert (step_dimensions host this source scale <> []) as Hne.
  { intros E. rewrite E in Hlen. simpl in Hlen. lia. }
  pose proof (last_In _ {| width := 0; height := 0 |} Hne) as Hin.
  rewrite Hlast in Hin.
  assert (width (scaled host (factorFor host scale) last) = 0 \/
          height (scaled host (factorFor host scale) last) = 0) as Hzero.
  { unfold step_dimensions in Hin. rewrite H1, Ef in Hin. rewrite Ef.
    destruct Hside as [[E _] | [E _]]; [left | right].
    - pose proof (passes_narrow_width host sound this (stepsFor host scale) f Hb Hf
                                      loop_fuel (enter source) E) as Hz.
      rewrite Forall_forall in Hz. exact (Hz _ Hin).
    - pose proof (passes_narrow_height host sound this (stepsFor host scale) f Hb Hf
                                       loop_fuel (enter source) E) as Hz.
      rewrite Forall_forall in Hz. exact (Hz _ Hin). }
  destruct (body host this (of_Z n) (factorFor host scale) last) as [st' | c | e] eqn:Eb.
  - contradiction.
  - exfalso.
    destruct (body_return host this (of_Z n) (factorFor host scale) last c Eb)
      as (_ & Hnw & Hnh).
    destruct Hzero; contradiction.
  - apply Hend.
Qed.

Lemma one_pixel_side_throws_witness :
  drawImage (demo_host 1 25600) fresh (blank 1 25600) (Fin (1 # 16))
  = Thrown IndexSizeError.
Proof.
  apply (one_pixel_side_throws (demo_host 1 25600) fresh (blank 1 25600)
           (Fin (1 # 16)) 4 (1 # 2)).
  - exact round64_sound.
  - reflexivity.
  - vm_compute. reflexivity.
  - lia.
  - vm_compute. reflexivity.
  - exists 1, (- 1). split; [reflexivity |]. split; [lia | reflexivity].
  - split; [discriminate | reflexivity].
  - left. split; [reflexivity | discriminate].
Defined.

(** Once the image has loaded, the chain ends as [drawImage] does: it
    resolves when a canvas comes back and the payload decodes. *)
Lemma chain_after_load (host : Host) (this : Compress) (file : Blob) (img : Image) :
  loadImage host file = Some img ->
  decodable host ->
  match drawImage host this (getOriginInfo host this img)
                  (scaleFor host (config this) (getOriginInfo host this img)) with
  | Returned _ => exists o : Outcome, snd (chain host this file) = Resolved o
  | Undefined => snd (chain host this file) = Rejected TypeError
  | Thrown e => snd (chain host this file) = Rejected e
  | OutOfFuel => snd (chain host this file) = Unsettled
  end.
Proof.
  intros L Hd. unfold chain. rewrite L.
  destruct (drawImage _ _ _ _) as [result | | e |]; try reflexivity.
  unfold finish, dataURLToBlob.
  destruct (Hd result (outputType this) (quality (config this))) as (binary & ->).
  eexists. reflexivity.
Qed.

(** X11. With positive bounds, on a host whose data URLs decode, [process]
    on a file whose type begins with [image] rejects with [image load
    error] when the image does not load.  When it loads, with sides that
    are positive, [process] resolves exactly when no pair the scaler
    computes has a 0 in it; when one has, it rejects with the
    [IndexSizeError] of [getImageData]. *)
Theorem process_resolves_iff (host : Host) (this : Compress) (file : Blob) :
  sound_rounding (rnd host) ->
  matches_image (blob_type file) = true ->
  0 < maxWidth (config this) -> 0 < maxHeight (config this) ->
  decodable host ->
  (loadImage host file = None ->
   snd (process host this file) = Rejected (Reason "image load error")) /\
  (forall img : Image,
      loadImage host file = Some img ->
      (forall tag, 0 < t_width (getTransform host img tag) /\
                   0 < t_height (getTransform host img tag)) ->
      ((exists o : Outcome, snd (process host this file) = Resolved o) <->
       Forall (fun d : Dimension => width d <> 0 /\ height d <> 0)
              (step_dimensions host (instance_after (process host this file))
                 (getOriginInfo host (instance_after (process host this file)) img)
                 (scaleFor host (config this)
                    (getOriginInfo host (instance_after (process host this file)) img)))) /\
      (~ Forall (fun d : Dimension => width d <> 0 /\ height d <> 0)
           (step_dimensions host (instance_after (process host this file))
              (getOriginInfo host (instance_after (process host this file)) img)
              (scaleFor host (config this)
                 (getOriginInfo host (instance_after (process host this file)) img))) ->
       snd (process host this file) = Rejected IndexSizeError)).
Proof.
  intros sound Hm Hw Hh Hd.
  rewrite (process_instance host this file), (process_chain host this file Hm).
  set (this1 := fst (fst (gates this file))).
  pose proof (gates_config this file) as Hc. fold this1 in Hc. rewrite <- Hc in *.
  split.
  - intros L. unfold chain. rewrite L. reflexivity.
  - intros img L Ht.
    set (canvas := getOriginInfo host this1 img).
    destruct (getOriginInfo_size host this1 img) as (tag & Hcw & Hch).
    fold canvas in Hcw, Hch. destruct (Ht tag) as [Htw Hth].
    destruct (scaleFor_unit host sound (config this1) canvas)
      as (s & Es & Hs01); try assumption; try lia.
    pose proof (chain_after_load host this1 file img L Hd) as Hchain.
    fold canvas in Hchain. rewrite Es in *.
    unfold step_dimensions.
    destruct (Num.eqb (Fin s) (of_Z 1)) eqn:E1.
    + unfold drawImage in Hchain. rewrite E1 in Hchain.
      split; [split; [constructor | intros _; exact Hchain] |].
      intros Hn. exfalso. apply Hn. constructor.
    + assert (s < 1)%Q as Hlt.
      { destruct (Qlt_le_dec s 1) as [H | H]; [exact H |]. exfalso.
        assert (Num.eqb (Fin s) (of_Z 1) = true) as E; [| rewrite E in E1; discriminate].
        unfold of_Z; simpl. apply Qeq_bool_iff. unfold inject_Z. lra. }
      destruct (stepsFor_unit host s sound (conj (proj1 Hs01) Hlt)) as (n & Hn & En).
      destruct (drawImage_run host this1 canvas (Fin s) n E1 En) as (last & _ & _ & _ & Hend);
        try lia.
      assert (forall result : Canvas,
                 drawImage host this1 canvas (Fin s) = Returned result ->
                 Forall (fun d : Dimension => width d <> 0 /\ height d <> 0)
                        (passes host loop_fuel this1 (stepsFor host (Fin s))
                                (factorFor host (Fin s)) (enter canvas))) as Hnz.
      { intros result D. unfold drawImage in D. rewrite E1 in D.
        exact (while_nonzero host sound this1 _ _ result _ _ D). }
      destruct (body host this1 (of_Z n) (factorFor host (Fin s)) last) as [st' | c | e].
      * contradiction.
      * rewrite Hend in Hchain.
        split; [split; [intros _; exact (Hnz c Hend) | intros _; exact Hchain] |].
        intros Hn'. exfalso. apply Hn'. exact (Hnz c Hend).
      * destruct Hend as [-> D]. rewrite D in Hchain.
        split; [split |].
        -- intros (o & Ho). rewrite Hchain in Ho. discriminate.
        -- intros Hall. exfalso.
           destruct (drawImage_returns host this1 canvas (Fin s) n E1 En)
             as (c & _ & D' & _); try lia.
           { unfold step_dimensions. rewrite E1. exact Hall. }
           rewrite D in D'. discriminate.
        -- intros _. exact Hchain.
Qed.

(** The data URLs of the example host decode. *)
Lemma demo_decodable (w h : Z) : decodable (demo_host w h).
Proof.
  intros canvas [type |] q; simpl; unfold demo_toDataURL;
    [destruct (String.eqb type "image/jpeg");
     [| destruct (String.eqb type "image/webp")] |];
    eexists; vm_compute; reflexivity.
Qed.

Lemma process_resolves_iff_witness :
  snd (process (demo_host 1 25600) fresh (gif_file 10)) = Rejected IndexSizeError /\
  exists o : Outcome,
    snd (process (demo_host 3200 2400) fresh (gif_file 10)) = Resolved o.
Proof.
  split.
  - destruct (process_resolves_iff (demo_host 1 25600) fresh (gif_file 10))
      as (_ & H);
      [exact round64_sound | reflexivity | reflexivity | reflexivity
       | exact (demo_decodable 1 25600) |].
    destruct (H {| img_width := 1; img_height := 25600; img_src := gif_file 10 |})
      as (_ & R); [reflexivity | intros tag; simpl; lia |].
    apply R. vm_compute. intros F. inversion F as [| d l [Hw _] _]. apply Hw. reflexivity.
  - destruct (process_resolves_iff (demo_host 3200 2400) fresh (gif_file 10))
      as (_ & H);
      [exact round64_sound | reflexivity | reflexivity | reflexivity
       | exact (demo_decodable 3200 2400) |].
    destruct (H {| img_width := 3200; img_height := 2400; img_src := gif_file 10 |})
      as (R & _); [reflexivity | intros tag; simpl; lia |].
    apply R. vm_compute. repeat constructor; discriminate.
Defined.

(** X12. A call that has run leaves nothing behind that the next call
    depends on: [process] on the instance an earlier call handed back gives
    what it gives on the instance as it was before. *)
Theorem sequential_calls_independent (host : Host) (this : Compress) (first next : Blob) :
  process host (instance_after (process host this first)) next
  = process host this next.
Proof.
  pose proof (process_instance host this first) as Hi.
  pose proof (gates_config this first) as Hc. rewrite <- Hi in Hc.
  destruct (instance_after (process host this first)) as [c t]. cbn [config] in Hc.
  subst c. unfold process. rewrite gates_overwrite. reflexivity.
Qed.

(** The blob [dataURLToBlob] makes has the output type of the instance. *)
Lemma dataURLToBlob_type (host : Host) (this : Compress) (dataURL : string) (b : Blob) :
  dataURLToBlob host this dataURL = Some b ->
  Some (blob_type b)
  = match outputType this with Some t => Some t | None => Some ""%string end.
Proof.
  unfold dataURLToBlob. destruct (atob host _); [| discriminate].
  intros [= <-]. cbn [blob_type]. destruct (outputType this); reflexivity.
Qed.

(** X13. When [process] resolves for a file of a supported type, the blob
    of [dist] has the type of the file, whether it is the file or the
    re-encoded blob.  For an unsupported image type the blob of [dist] is
    the file itself or a blob of type [image/jpeg]. *)
Theorem dist_blob_type (host : Host) (this this' : Compress) (file : Blob)
        (ev : list event) (o : Outcome) :
  process host this file = (this', ev, Resolved o) ->
  (isSupportedType (blob_type file) = true ->
   blob_type (blob (dist o)) = blob_type file) /\
  (isSupportedType (blob_type file) = false ->
   blob (dist o) = file \/ blob_type (blob (dist o)) = DEFAULT_TYPE).
Proof.
  intros H.
  assert (this' = fst (fst (gates this file))) as Ei.
  { rewrite <- (process_instance host this file). rewrite H. reflexivity. }
  assert (matches_image (blob_type file) = true) as Hm.
  { destruct (matches_image (blob_type file)) eqn:Hm; [reflexivity |].
    unfold process, gates in H. rewrite Hm in H. discriminate. }
  pose proof (gates_outputType this file Hm) as Ht. rewrite <- Ei in Ht.
  apply process_resolved in H.
  destruct H as (img & result & distBlob & _ & _ & B & ->).
  apply dataURLToBlob_type in B. rewrite Ht in B. injection B as B.
  cbn [dist blob]. unfold sizeGuard.
  split; intros Hs; rewrite Hs in B;
    destruct (size file <? size distBlob); cbn [blob]; auto.
Qed.

Lemma dist_blob_type_witness :
  (isSupportedType "image/png" = true ->
   blob_type {| blob_type := "image/png"; blob_data := png_signature |}
   = "image/png"%string) /\
  (isSupportedType "image/png" = false ->
   {| blob_type := "image/png"; blob_data := png_signature |} = png_file 10 \/
   blob_type {| blob_type := "image/png"; blob_data := png_signature |} = DEFAULT_TYPE).
Proof.
  apply (dist_blob_type (demo_host 800 600) fresh (with_outputType fresh "image/png")
           (png_file 10)
           [Load (png_file 10); ToDataURL (Some "image/png"%string) (92 # 100)]
           {| dist := {| blob := {| blob_type := "image/png"; blob_data := png_signature |};
                         dimension := {| width := 800; height := 600 |} |};
              source := {| blob := png_file 10;
                           dimension := {| width := 800; height := 600 |} |} |}).
  vm_compute. reflexivity.
Defined.

(* ================================================================== *)
(** ** Further properties: the result fits the bounds *)
(* ================================================================== *)

Section Fits.

Variable host : Host.
Hypothesis sound : sound_rounding (rnd host).
Variable f : Q.
Hypothesis unit_factor : (0 <= f <= 1)%Q.

(** One product [width * factor | 0] is above the exact product by less
    than [2 ^ -22]. *)
Lemma pass_upper (w : Z) :
  0 <= w < 2 ^ 31 ->
  (inject_Z (to_int32 (num_mul host (of_Z w) (Fin f))) <= inject_Z w * f + (1 # 4194304))%Q.
Proof.
  intros Hw.
  unfold num_mul, Num.mul, of_Z.
  assert (0 <= inject_Z w <= inject_Z (2 ^ 31 - 1))%Q as Hwq.
  { split; [change 0%Q with (inject_Z 0) |]; rewrite <- Zle_Qle; lia. }
  destruct (rnd_grid (rnd host) sound 22 (inject_Z w * f)) as (q & E & Hq0 & Hq).
  - lia.
  - nra.
  - change (2 ^ 22)%Q with (inject_Z 4194304) in *.
    assert (inject_Z w * f <= inject_Z (2 ^ 31 - 1))%Q as Hp by nra.
    change (inject_Z (2 ^ 31 - 1)) with (2147483647 # 1)%Q in Hp.
    change (inject_Z (2 ^ 53 - 1)) with (9007199254740991 # 1)%Q.
    change (inject_Z 4194304) with (4194304 # 1)%Q. lra.
  - rewrite E. unfold to_int32. rewrite (Qtrunc_nonneg q Hq0).
    assert (0 <= Qfloor q) as Hfl.
    { change 0 with (Qfloor 0). apply Qfloor_resp_le. exact Hq0. }
    pose proof (Qfloor_le q) as Hle.
    change (2 ^ (- (22)))%Q with (1 # 4194304)%Q in Hq.
    assert (Qfloor q < w + 1) as Hlt.
    { rewrite Zlt_Qlt, inject_Z_plus. change (inject_Z 1) with 1%Q. nra. }
    rewrite wrap32_small by lia. lra.
Qed.

Variable this : Compress.
Variable n : Z.
Variable W H : Z.
Hypothesis W_range : 0 <= W < 2 ^ 31.
Hypothesis H_range : 0 <= H < 2 ^ 31.

(** After [i] passes the sizes are above the exact ones, [W * f ^ i] and
    [H * f ^ i], by less than [i * 2 ^ -22]; so is the canvas returned
    after [n] passes. *)
Lemma while_fits :
  forall (fuel : nat) (st : Loop) (canvas : Canvas),
    0 <= l_i st ->
    0 <= l_width st <= W -> 0 <= l_height st <= H ->
    (inject_Z (l_width st) <= inject_Z W * f ^ l_i st + inject_Z (l_i st) * (1 # 4194304))%Q ->
    (inject_Z (l_height st) <= inject_Z H * f ^ l_i st + inject_Z (l_i st) * (1 # 4194304))%Q ->
    while host fuel this (of_Z n) (Fin f) st = Returned canvas ->
    (canvas_width canvas <= W /\
     (inject_Z (canvas_width canvas) <= inject_Z W * f ^ n + inject_Z n * (1 # 4194304))%Q) /\
    (canvas_height canvas <= H /\
     (inject_Z (canvas_height canvas) <= inject_Z H * f ^ n + inject_Z n * (1 # 4194304))%Q).
Proof.
  assert (forall (B x i : Z),
             0 <= i -> 0 <= x <= B -> 0 <= B < 2 ^ 31 ->
             (inject_Z x <= inject_Z B * f ^ i + inject_Z i * (1 # 4194304))%Q ->
             (inject_Z (to_int32 (num_mul host (of_Z x) (Fin f)))
              <= inject_Z B * f ^ (i + 1) + inject_Z (i + 1) * (1 # 4194304))%Q) as Hstep.
  { intros B x i Hi Hx HB Hinv.
    pose proof (pass_upper x ltac:(lia)) as Hup.
    assert (f ^ (i + 1) == f ^ i * f)%Q as ->.
    { rewrite Qpower_plus' by lia. reflexivity. }
    rewrite inject_Z_plus.
    assert (0 <= f ^ i)%Q as Hpow by (apply Qpower_0_le; lra).
    assert (0 <= inject_Z i)%Q as Hiq.
    { change 0%Q with (inject_Z 0). rewrite <- Zle_Qle. lia. }
    assert (0 <= inject_Z B)%Q as HBq.
    { change 0%Q with (inject_Z 0). rewrite <- Zle_Qle. lia. }
    assert (0 <= inject_Z x)%Q as Hxq.
    { change 0%Q with (inject_Z 0). rewrite <- Zle_Qle. lia. }
    change (inject_Z 1) with 1%Q.
    set (P := (f ^ i)%Q) in *. set (X := inject_Z x) in *.
    set (I := inject_Z i) in *. set (Bq := inject_Z B) in *.
    set (R := inject_Z (to_int32 (num_mul host (of_Z x) (Fin f)))) in *.
    assert (X * f <= (Bq * P + I * (1 # 4194304)) * f)%Q as H1
        by (apply Qmult_le_compat_r; lra).
    assert (I * (1 # 4194304) * f <= I * (1 # 4194304))%Q as H2 by nra.
    assert ((Bq * P + I * (1 # 4194304)) * f == Bq * P * f + I * (1 # 4194304) * f)%Q as E
        by ring.
    lra. }
  induction fuel as [| fuel IH]; intros st canvas Hi Hw Hh Iw Ih; [discriminate |].
  cbn [while]. destruct (Num.ltb (of_Z (l_i st)) (of_Z n)) eqn:Elt; [| discriminate].
  pose proof (Hstep W (l_width st) (l_i st) Hi Hw W_range Iw) as Sw.
  pose proof (Hstep H (l_height st) (l_i st) Hi Hh H_range Ih) as Sh.
  destruct (pass_size host sound f unit_factor (l_width st)) as [Hdw _]; [lia |].
  destruct (pass_size host sound f unit_factor (l_height st)) as [Hdh _]; [lia |].
  destruct (body host this (of_Z n) (Fin f) st) as [st' | c | e] eqn:Eb.
  - intros Hr.
    destruct (body_next host this (of_Z n) (Fin f) st st' Eb) as (Ei & Ew & Eh).
    unfold scaled in Ew, Eh; cbn [width height] in Ew, Eh.
    apply (IH st' canvas).
    + lia.
    + rewrite Ew. lia.
    + rewrite Eh. lia.
    + rewrite Ew, Ei. exact Sw.
    + rewrite Eh, Ei. exact Sh.
    + exact Hr.
  - intros Hr. injection Hr as <-.
    assert (l_i st + 1 = n) as En.
    { pose proof (body_return_index host this (of_Z n) (Fin f) st c Eb) as Eq.
      rewrite of_Z_eqb in Eq. apply Z.eqb_eq in Eq. exact Eq. }
    destruct (body_return host this (of_Z n) (Fin f) st c Eb) as (Ec & _ & _).
    assert (canvas_width c = to_int32 (num_mul host (of_Z (l_width st)) (Fin f)) /\
            canvas_height c = to_int32 (num_mul host (of_Z (l_height st)) (Fin f)))
      as [Ew Eh].
    { unfold canvas_dimension, scaled in Ec. injection Ec as Ew Eh. auto. }
    rewrite <- En, Ew, Eh. split; (split; [lia |]); [exact Sw | exact Sh].
  - discriminate.
Qed.

End Fits.

(** The least of [1] and two ratios is below each of them. *)
Lemma min3_le (a b : num) (s : Q) :
  min3 (of_Z 1) a b = Fin s ->
  (s <= 1)%Q /\
  (forall q, a = Fin q -> (s <= q)%Q) /\
  (forall q, b = Fin q -> (s <= q)%Q).
Proof.
  unfold min3, min2, of_Z, Num.ltb.
  destruct a as [| | | qa]; destruct b as [| | | qb]; try discriminate;
    repeat match goal with
           | |- context [Qlt_le_dec ?x ?y] => destruct (Qlt_le_dec x y)
           end;
    try discriminate;
    intros E; injection E as <-;
    (split; [unfold inject_Z in *; lra |]);
    split; intros x Ex; try discriminate; injection Ex as <-;
    unfold inject_Z in *; lra.
Qed.

Section Ratio.

Variable host : Host.
Hypothesis sound : sound_rounding (rnd host).

(** The ratio of a bound to a larger size is below 1, and above the exact
    quotient by less than [2 ^ -53]. *)
Lemma ratio_upper (m w : Z) :
  0 < m -> m < w < 2 ^ 31 ->
  exists q, num_div host (of_Z m) (of_Z w) = Fin q /\
            (q < 1)%Q /\
            (q * inject_Z w <= inject_Z m + inject_Z w * (1 # 9007199254740992))%Q.
Proof.
  intros Hm Hw. unfold num_div, Num.div, of_Z.
  pose proof (inject_Z_lt0 m Hm) as Hmq.
  pose proof (inject_Z_lt0 w ltac:(lia)) as Hwq.
  rewrite (Qis_zero_false (inject_Z w)) by lra.
  set (y := (inject_Z m / inject_Z w)%Q).
  assert (y * inject_Z w == inject_Z m)%Q as Ey.
  { unfold y. field. lra. }
  assert (inject_Z m <= inject_Z w - 1)%Q as Hmw.
  { assert (m <= w - 1) as Hz by lia. rewrite Zle_Qle in Hz.
    unfold Z.sub in Hz. rewrite inject_Z_plus in Hz. exact Hz. }
  assert (inject_Z w <= 2147483647 # 1)%Q as Hw31.
  { change (2147483647 # 1)%Q with (inject_Z (2 ^ 31 - 1)). rewrite <- Zle_Qle. lia. }
  assert (0 <= y)%Q as Hy0.
  { unfold y. apply Qle_shift_div_l; lra. }
  assert (y <= 2147483646 # 2147483647)%Q as Hy1.
  { unfold y. apply Qle_shift_div_r; [exact Hwq |]. lra. }
  destruct (rnd_grid (rnd host) sound 53 y) as (q & E & Hq0 & Hq).
  - lia.
  - exact Hy0.
  - change (2 ^ 53)%Q with (9007199254740992 # 1)%Q.
    change (inject_Z (2 ^ 53 - 1)) with (9007199254740991 # 1)%Q. lra.
  - exists q. split; [exact E |].
    change (2 ^ (- (53)))%Q with (1 # 9007199254740992)%Q in Hq.
    split; [lra |].
    assert (q * inject_Z w <= (y + (1 # 9007199254740992)) * inject_Z w)%Q as H1
        by (apply Qmult_le_compat_r; lra).
    assert ((y + (1 # 9007199254740992)) * inject_Z w
            == y * inject_Z w + inject_Z w * (1 # 9007199254740992))%Q as E2 by ring.
    lra.
Qed.

(** A size the loop leaves is within the bound its ratio was taken from:
    the accumulated excess stays below one pixel. *)
Lemma fits_one (m c r n : Z) (s f : Q) :
  0 < m -> 0 <= c < 2 ^ 31 -> 1 <= n <= 4 ->
  (forall q, num_div host (of_Z m) (of_Z c) = Fin q -> (s <= q)%Q) ->
  (f ^ n <= s + pow_slack)%Q ->
  r <= c ->
  (inject_Z r <= inject_Z c * f ^ n + inject_Z n * (1 # 4194304))%Q ->
  r <= m.
Proof.
  intros Hm Hc Hn Hs Hf Hrc Hr.
  destruct (Z_le_gt_dec c m) as [Hle | Hgt]; [lia |].
  destruct (ratio_upper m c Hm ltac:(lia)) as (q & E & _ & Hq).
  specialize (Hs q E).
  pose proof (inject_Z_lt0 c ltac:(lia)) as Hcq.
  assert (inject_Z c <= 2147483647 # 1)%Q as Hc31.
  { change (2147483647 # 1)%Q with (inject_Z (2 ^ 31 - 1)). rewrite <- Zle_Qle. lia. }
  assert (inject_Z n <= 4)%Q as Hn4.
  { change 4%Q with (inject_Z 4). rewrite <- Zle_Qle. lia. }
  unfold pow_slack in Hf.
  set (P := (f ^ n)%Q) in *. set (C := inject_Z c) in *.
  set (N := inject_Z n) in *. set (M := inject_Z m) in *.
  assert (C * P <= C * (q + (1 # 1099511627776)))%Q as H1.
  { rewrite (Qmult_comm C P), (Qmult_comm C (q + (1 # 1099511627776))).
    apply Qmult_le_compat_r; lra. }
  assert (C * (q + (1 # 1099511627776)) == q * C + C * (1 # 1099511627776))%Q as E1 by ring.
  assert (inject_Z r < inject_Z (m + 1))%Q as Hlt.
  { rewrite inject_Z_plus. fold M. change (inject_Z 1) with 1%Q. lra. }
  rewrite <- Zlt_Qlt in Hlt. lia.
Qed.

(** With a scale of exactly 1 the size is within the bound already. *)
Lemma unit_scale_fits (m c : Z) (s : Q) :
  0 < m -> 0 <= c < 2 ^ 31 ->
  (forall q, num_div host (of_Z m) (of_Z c) = Fin q -> (s <= q)%Q) ->
  (s == 1)%Q ->
  c <= m.
Proof.
  intros Hm Hc Hs E1.
  destruct (Z_le_gt_dec c m) as [Hle | Hgt]; [exact Hle |].
  destruct (ratio_upper m c Hm ltac:(lia)) as (q & E & Hq1 & _).
  specialize (Hs q E). lra.
Qed.

End Ratio.

(** X14.  The canvas [drawImage] returns fits the bounds.  With a sound
    rounding, positive [maxWidth] and [maxHeight], and a source canvas
    whose sides are below [2 ^ 31]: when the factor [Math.pow] gives is
    between 0 and 1 and its [steps]-fold product is above the scale by at
    most [2 ^ -40], the returned canvas is at most [maxWidth] wide and at
    most [maxHeight] high. *)
Theorem scaled_canvas_fits (host : Host) (this : Compress) (cfg : Config)
        (source result : Canvas) (n : Z) (s f : Q) :
  sound_rounding (rnd host) ->
  0 < maxWidth cfg -> 0 < maxHeight cfg ->
  0 <= canvas_width source < 2 ^ 31 -> 0 <= canvas_height source < 2 ^ 31 ->
  scaleFor host cfg source = Fin s ->
  stepsFor host (Fin s) = of_Z n ->
  factorFor host (Fin s) = Fin f ->
  (0 <= f <= 1)%Q ->
  (f ^ n <= s + pow_slack)%Q ->
  drawImage host this source (Fin s) = Returned result ->
  canvas_width result <= maxWidth cfg /\ canvas_height result <= maxHeight cfg.
Proof.
  intros sound Hmw Hmh Hw Hh Es En Ef Hf Hpow Hr.
  destruct (min3_le _ _ s Es) as (Hs1 & Hsw & Hsh).
  unfold drawImage in Hr.
  destruct (Num.eqb (Fin s) (of_Z 1)) eqn:E1.
  - injection Hr as <-.
    assert (s == 1)%Q as Hs.
    { unfold of_Z in E1; simpl in E1. apply Qeq_bool_iff in E1. exact E1. }
    split.
    + exact (unit_scale_fits host sound (maxWidth cfg) (canvas_width source) s
                             Hmw Hw Hsw Hs).
    + exact (unit_scale_fits host sound (maxHeight cfg) (canvas_height source) s
                             Hmh Hh Hsh Hs).
  - rewrite En, Ef in Hr.
    assert (1 <= n <= 4) as Hn.
    { split.
      - unfold loop_fuel in Hr. cbn [while] in Hr.
        destruct (Num.ltb (of_Z (l_i (enter source))) (of_Z n)) eqn:Elt;
          [| discriminate].
        unfold enter in Elt; cbn [l_i] in Elt.
        rewrite of_Z_ltb in Elt. apply Z.ltb_lt in Elt. lia.
      - unfold stepsFor in En.
        destruct (min2_MAX_STEPS_bound
                    (ceil (num_div host (num_div host (of_Z 1) (Fin s)) SCALE_FACTOR)))
          as [E | [E | (q & E & Hq)]]; rewrite E in En; try discriminate.
        injection En as ->. change 4%Q with (inject_Z 4) in Hq.
        rewrite <- Zle_Qle in Hq. exact Hq. }
    destruct (while_fits host sound f Hf this n
                         (canvas_width source) (canvas_height source) Hw Hh
                         loop_fuel (enter source) result)
      as [[Hcw Hqw] [Hch Hqh]].
    + unfold enter; cbn [l_i]; lia.
    + unfold enter; cbn [l_width]; lia.
    + unfold enter; cbn [l_height]; lia.
    + unfold enter; cbn [l_width l_i]. simpl (f ^ 0)%Q. unfold inject_Z at 3. lra.
    + unfold enter; cbn [l_height l_i]. simpl (f ^ 0)%Q. unfold inject_Z at 3. lra.
    + exact Hr.
    + split.
      * exact (fits_one host sound (maxWidth cfg) (canvas_width source)
                        (canvas_width result) n s f Hmw Hw Hn Hsw Hpow Hcw Hqw).
      * exact (fits_one host sound (maxHeight cfg) (canvas_height source)
                        (canvas_height result) n s f Hmh Hh Hn Hsh Hpow Hch Hqh).
Qed.

Lemma scaled_canvas_fits_witness :
  exists result : Canvas,
    drawImage (demo_host 3200 2400) fresh (blank 3200 2400) (Fin (1 # 2)) = Returned result /\
    canvas_width result <= 1600 /\ canvas_height result <= 1200.
Proof.
  assert (exists result : Canvas,
             drawImage (demo_host 3200 2400) fresh (blank 3200 2400) (Fin (1 # 2))
             = Returned result) as [result E]
      by (eexists; vm_compute; reflexivity).
  exists result. split; [exact E |].
  apply (scaled_canvas_fits (demo_host 3200 2400) fresh (config (bounded 1600 1200))
                            (blank 3200 2400) result 3 (1 # 2)
                            (7149018786131517 # 9007199254740992)).
  - exact round64_sound.
  - simpl; lia.
  - simpl; lia.
  - simpl; lia.
  - simpl; lia.
  - vm_compute; reflexivity.
  - vm_compute; reflexivity.
  - vm_compute; reflexivity.
  - split; vm_compute; discriminate.
  - vm_compute; discriminate.
  - exact E.
Defined.
